(** * Olympic dashboard (app.py): the aggregation pipeline, embedded and verified

    The program is one Python script: it loads a table of Olympic results
    with pandas, cleans it, and derives the tables behind each chart.  The
    data frame is modelled as a list of records (one per row, in row order),
    every pandas call of the script as a function on that list, and the
    script's module-level names (df, ita, ita_medals_unique, ...) keep
    their names.

    Modelled: the preprocessing block (lines 11-33), every table the
    script derives from the cleaned frame (lines 36-284), and the one chart
    constructor that can stop the script ([px.bar] at lines 196-207, which
    raises when a column it names is missing).  Not modelled:
    [pd.read_csv], what the plotly chart constructors draw, and the Dash
    layout.  Numbers are exact rationals where pandas computes in binary64;
    statements about a computed value say on which inputs the two agree. *)

From Stdlib Require Import List Bool Arith ZArith NArith QArith Qround Lia Lqa.
From Stdlib Require Import Ascii String Permutation Sorted OrderedTypeEx.
Import ListNotations.

Local Open Scope string_scope.
Local Open Scope list_scope.
Local Open Scope Z_scope.

(* ------------------------------------------------------------------------- *)
(** ** hashlib.sha256(...).hexdigest()

    The digest of FIPS 180-4 on a byte string, written on [N] with the
    32-bit wrap-around explicit. *)

Module SHA256.

Local Open Scope N_scope.

Definition w32 (x : N) : N := x mod 0x100000000.

Definition add32 (x y : N) : N := w32 (x + y).

Definition rotr (n x : N) : N :=
  N.lor (N.shiftr x n) (w32 (N.shiftl x (32 - n))).

Definition not32 (x : N) : N := N.lxor x 0xffffffff.

Definition Ch (x y z : N) : N := N.lxor (N.land x y) (N.land (not32 x) z).

Definition Maj (x y z : N) : N :=
  N.lxor (N.lxor (N.land x y) (N.land x z)) (N.land y z).

Definition bsig0 (x : N) : N := N.lxor (N.lxor (rotr 2 x) (rotr 13 x)) (rotr 22 x).
Definition bsig1 (x : N) : N := N.lxor (N.lxor (rotr 6 x) (rotr 11 x)) (rotr 25 x).
Definition ssig0 (x : N) : N := N.lxor (N.lxor (rotr 7 x) (rotr 18 x)) (N.shiftr x 3).
Definition ssig1 (x : N) : N := N.lxor (N.lxor (rotr 17 x) (rotr 19 x)) (N.shiftr x 10).

(** The first [n] primes, by trial division. *)
Definition is_prime (n : N) : bool :=
  forallb (fun d => negb (n mod d =? 0)) (map N.of_nat (seq 2 (N.to_nat n - 2))).

Definition primes (n : nat) : list N :=
  firstn n (filter is_prime (map N.of_nat (seq 2 310))).

(** The largest [r] below [2 ^ bits] with [r ^ k <= n], one bit at a time. *)
Fixpoint root (k : N) (bits : nat) (n r : N) : N :=
  match bits with
  | O => r
  | S b =>
      let c := r + 2 ^ N.of_nat b in
      root k b n (if c ^ k <=? n then c else r)
  end.

(** The first 32 bits of the fractional part of the [k]-th root of [p]. *)
Definition frac_root (k p : N) : N := w32 (root k 36 (p * 2 ^ (32 * k)) 0).

(** The round constants: from the cube roots of the first 64 primes. *)
Definition K : list N := Eval vm_compute in map (frac_root 3) (primes 64).

(** The initial hash value: from the square roots of the first 8 primes. *)
Definition H0 : list N := Eval vm_compute in map (frac_root 2) (primes 8).

(** Big-endian bytes of [x], [n] of them. *)
Fixpoint be_bytes (n : nat) (x : N) : list N :=
  match n with
  | O => []
  | S n' => N.shiftr x (8 * N.of_nat n') mod 256 :: be_bytes n' x
  end.

(** Padding: the byte 0x80, zeros up to 56 modulo 64, the bit length on
    eight bytes. *)
Definition pad (msg : list N) : list N :=
  let l := List.length msg in
  let zeros := ((119 - l mod 64) mod 64)%nat in
  msg ++ 0x80 :: repeat 0 zeros ++ be_bytes 8 (8 * N.of_nat l).

Fixpoint words_of_bytes (fuel : nat) (bs : list N) : list N :=
  match fuel, bs with
  | S fuel', b0 :: b1 :: b2 :: b3 :: rest =>
      (N.shiftl b0 24 + N.shiftl b1 16 + N.shiftl b2 8 + b3)
        :: words_of_bytes fuel' rest
  | _, _ => []
  end.

Fixpoint blocks_of_words (fuel : nat) (ws : list N) : list (list N) :=
  match fuel, ws with
  | S fuel', _ :: _ => firstn 16 ws :: blocks_of_words fuel' (skipn 16 ws)
  | _, _ => []
  end.

(** The message schedule, most recent word first: [W t] is computed from
    the words 2, 7, 15 and 16 places back. *)
Fixpoint schedule (n : nat) (rev_ws : list N) : list N :=
  match n with
  | O => rev_ws
  | S n' =>
      let w := add32 (add32 (ssig1 (nth 1 rev_ws 0)) (nth 6 rev_ws 0))
                     (add32 (ssig0 (nth 14 rev_ws 0)) (nth 15 rev_ws 0)) in
      schedule n' (w :: rev_ws)
  end.

Definition W (block : list N) : list N := rev (schedule 48 (rev block)).

Record regs := mkRegs { ra : N; rb : N; rc : N; rd : N; re : N; rf : N; rg : N; rh : N }.

Definition round (s : regs) (kw : N * N) : regs :=
  let t1 := add32 (add32 (add32 (rh s) (bsig1 (re s))) (Ch (re s) (rf s) (rg s)))
                  (add32 (fst kw) (snd kw)) in
  let t2 := add32 (bsig0 (ra s)) (Maj (ra s) (rb s) (rc s)) in
  mkRegs (add32 t1 t2) (ra s) (rb s) (rc s) (add32 (rd s) t1) (re s) (rf s) (rg s).

Definition regs_of (h : list N) : regs :=
  mkRegs (nth 0 h 0) (nth 1 h 0) (nth 2 h 0) (nth 3 h 0)
         (nth 4 h 0) (nth 5 h 0) (nth 6 h 0) (nth 7 h 0).

Definition list_of (s : regs) : list N :=
  [ra s; rb s; rc s; rd s; re s; rf s; rg s; rh s].

Definition compress (h : list N) (block : list N) : list N :=
  let s := fold_left round (combine K (W block)) (regs_of h) in
  map (fun p => add32 (fst p) (snd p)) (combine h (list_of s)).

Definition digest_words (msg : list N) : list N :=
  let bs := pad msg in
  let ws := words_of_bytes (List.length bs) bs in
  fold_left compress (blocks_of_words (List.length ws) ws) H0.

Definition hex_digit (d : N) : ascii :=
  if d <? 10 then ascii_of_N (48 + d) else ascii_of_N (87 + d).

Fixpoint hex_of_word (n : nat) (x : N) : string :=
  match n with
  | O => EmptyString
  | S n' => String (hex_digit (N.shiftr x (4 * N.of_nat n') mod 16)) (hex_of_word n' x)
  end.

Definition bytes_of_string (s : string) : list N :=
  map N_of_ascii (list_ascii_of_string s).

(** [hashlib.sha256(s.encode()).hexdigest()]: the string is its sequence of
    UTF-8 bytes. *)
Definition hexdigest (s : string) : string :=
  fold_right (fun w acc => hex_of_word 8 w ++ acc)%string EmptyString
             (digest_words (bytes_of_string s)).

End SHA256.

(* ------------------------------------------------------------------------- *)
(** ** The data frame

    [pd.read_csv] hands over the parsed table; a row of it is a
    [RawRecord].  The columns are the ones the script reads.  A cell that
    pandas holds as NaN is [None]: the script fills Age, Height, Weight and
    Medal, and passes Name through [str].  Numeric cells are float64 in
    pandas; they are modelled as rationals, which is exact for the sums,
    halvings and truncations below as long as the floats involved are. *)

Record RawRecord := mkRaw {
  raw_ID : Z;
  raw_Name : option string;
  raw_Sex : string;
  raw_Age : option Q;
  raw_Height : option Q;
  raw_Weight : option Q;
  raw_NOC : string;
  raw_Games : string;
  raw_Year : Z;
  raw_Season : string;
  raw_Sport : string;
  raw_Event : string;
  raw_Medal : option string
}.

(** A row of [df] once the preprocessing block (lines 11-33) has run. *)
Record Row := mkRow {
  ID : Z;
  Name : string;
  Sex : string;
  Age : Z;
  Height : Z;
  Weight : Z;
  NOC : string;
  Games : string;
  Year : Z;
  Season : string;
  Sport : string;
  Event : string;
  Medal : string
}.

(* ------------------------------------------------------------------------- *)
(** ** Preprocessing *)

Fixpoint dropna {A : Type} (col : list (option A)) : list A :=
  match col with
  | [] => []
  | Some x :: col' => x :: dropna col'
  | None :: col' => dropna col'
  end.

Fixpoint insertQ (x : Q) (l : list Q) : list Q :=
  match l with
  | [] => [x]
  | y :: l' => if Qle_bool x y then x :: l else y :: insertQ x l'
  end.

Definition sortQ (l : list Q) : list Q := fold_right insertQ [] l.

(** [Series.median()]: NaN cells are skipped; the middle value, or the mean
    of the two middle values; NaN ([None]) when no value is left.  The mean
    of the two middle values is kept as an exact rational; pandas rounds it
    to binary64, which gives the same number whenever the sum of the two
    values is exact in binary64. *)
Definition median (col : list (option Q)) : option Q :=
  let xs := sortQ (dropna col) in
  let n := List.length xs in
  match n with
  | O => None
  | _ =>
      if Nat.even n
      then Some ((nth (n / 2 - 1) xs 0 + nth (n / 2) xs 0) / 2)%Q
      else Some (nth (n / 2) xs 0%Q)
  end.

(** [fillna] on one cell; a NaN fill value leaves the cell NaN. *)
Definition fillna {A : Type} (value : option A) (cell : option A) : option A :=
  match cell with
  | Some v => Some v
  | None => value
  end.

(** Lines 12-16: the three medians are taken over the whole frame. *)
Definition fillna_row (age height weight : option Q) (r : RawRecord) : RawRecord :=
  mkRaw (raw_ID r) (raw_Name r) (raw_Sex r)
        (fillna age (raw_Age r))
        (fillna height (raw_Height r))
        (fillna weight (raw_Weight r))
        (raw_NOC r) (raw_Games r) (raw_Year r) (raw_Season r)
        (raw_Sport r) (raw_Event r) (raw_Medal r).

Definition fillna_medians (raw : list RawRecord) : list RawRecord :=
  let age := median (map raw_Age raw) in
  let height := median (map raw_Height raw) in
  let weight := median (map raw_Weight raw) in
  map (fillna_row age height weight) raw.

(** A whole number. *)
Definition whole (q : Q) : bool := Qeq_bool (inject_Z (Qfloor q)) q.

(** The dtype [read_csv] gives a numeric column: int64 when every cell is
    present and whole (whole numbers being written without a decimal
    point), float64 otherwise.  [fillna] leaves an int64 column as it is,
    there being nothing to fill. *)
Definition is_int64 (col : list (option Q)) : bool :=
  forallb (fun cell => match cell with Some q => whole q | None => false end) col.

(** [astype("uint8")] on one cell.  In an int64 column the value wraps
    modulo 256 and nothing raises.  In a float64 column pandas raises on
    NaN and on a negative value; otherwise the value is truncated and kept
    modulo 256, and from 2^31 on the cast stores 0 (the numpy cast on
    x86-64 goes through 32 bits). *)
Definition astype_uint8 (int64 : bool) (cell : option Q) : option Z :=
  match cell with
  | None => None
  | Some q =>
      if int64 then Some (Qfloor q mod 256)
      else if Qle_bool 0 q
           then Some (if Qle_bool (inject_Z (2 ^ 31)) q then 0 else Qfloor q mod 256)
           else None
  end.

(** [astype("uint32")] and [astype("int16")] on an integer cell wrap. *)
Definition astype_uint32 (x : Z) : Z := x mod 2 ^ 32.

Definition astype_int16 (x : Z) : Z := (x + 2 ^ 15) mod 2 ^ 16 - 2 ^ 15.

(** [str(x)] on a Name cell. *)
Definition str (x : option string) : string :=
  match x with
  | Some s => s
  | None => "nan"
  end.

(** Lines 28-30. *)
Definition anonymise (x : option string) : string := SHA256.hexdigest (str x).

(** Line 33. *)
Definition fillna_Medal (cell : option string) : string :=
  match cell with
  | Some m => m
  | None => "None"
  end.

(** Lines 19-33 on one row of the filled frame, given which of the Age,
    Height and Weight columns are int64; [None] when a cast raises. *)
Definition astype_row (age height weight : bool) (r : RawRecord) : option Row :=
  match astype_uint8 age (raw_Age r), astype_uint8 height (raw_Height r),
        astype_uint8 weight (raw_Weight r) with
  | Some a, Some h, Some w =>
      Some (mkRow (astype_uint32 (raw_ID r)) (anonymise (raw_Name r)) (raw_Sex r)
                  a h w (raw_NOC r) (raw_Games r) (astype_int16 (raw_Year r))
                  (raw_Season r) (raw_Sport r) (raw_Event r)
                  (fillna_Medal (raw_Medal r)))
  | _, _, _ => None
  end.

Fixpoint traverse {A B : Type} (f : A -> option B) (l : list A) : option (list B) :=
  match l with
  | [] => Some []
  | x :: l' =>
      match f x, traverse f l' with
      | Some y, Some ys => Some (y :: ys)
      | _, _ => None
      end
  end.

(** The preprocessing block as a whole: [df] of line 33 from [df] of line 9. *)
Definition clean (raw : list RawRecord) : option (list Row) :=
  traverse (astype_row (is_int64 (map raw_Age raw)) (is_int64 (map raw_Height raw))
                       (is_int64 (map raw_Weight raw)))
           (fillna_medians raw).

(** A cleaned frame read as input again. *)
Definition as_raw (r : Row) : RawRecord :=
  mkRaw (ID r) (Some (Name r)) (Sex r)
        (Some (inject_Z (Age r))) (Some (inject_Z (Height r)))
        (Some (inject_Z (Weight r)))
        (NOC r) (Games r) (Year r) (Season r) (Sport r) (Event r)
        (Some (Medal r)).

(* ------------------------------------------------------------------------- *)
(** ** pandas operations used by the figures *)

Section DropDuplicates.
Context {K : Type} (eqb : K -> K -> bool) (key : Row -> K).

Fixpoint drop_seen (seen : list K) (l : list Row) : list Row :=
  match l with
  | [] => []
  | r :: l' =>
      if existsb (eqb (key r)) seen
      then drop_seen seen l'
      else r :: drop_seen (key r :: seen) l'
  end.

(** [drop_duplicates(subset=...)], keep="first". *)
Definition drop_duplicates (l : list Row) : list Row := drop_seen [] l.
End DropDuplicates.

Definition key_GEM (r : Row) : string * string * string := (Games r, Event r, Medal r).

Definition eqb_GEM (a b : string * string * string) : bool :=
  String.eqb (fst (fst a)) (fst (fst b)) && String.eqb (snd (fst a)) (snd (fst b))
  && String.eqb (snd a) (snd b).

Definition key_GI (r : Row) : string * Z := (Games r, ID r).

Definition eqb_GI (a b : string * Z) : bool :=
  String.eqb (fst a) (fst b) && Z.eqb (snd a) (snd b).

(** [x[x["Medal"] != "None"].drop_duplicates(subset=["Games","Event","Medal"])] *)
Definition dedupMedals (l : list Row) : list Row :=
  drop_duplicates eqb_GEM key_GEM
    (filter (fun r => negb (String.eqb (Medal r) "None")) l).

(** [x.drop_duplicates(subset=["Games","ID"])] *)
Definition dedupParticipants (l : list Row) : list Row :=
  drop_duplicates eqb_GI key_GI l.

Section SortedKeys.
Context {A : Type} (cmp : A -> A -> comparison).

Fixpoint insert_key (k : A) (ks : list A) : list A :=
  match ks with
  | [] => [k]
  | k' :: ks' =>
      match cmp k k' with
      | Lt => k :: ks
      | Eq => ks
      | Gt => k' :: insert_key k ks'
      end
  end.

(** The distinct keys in ascending order: the order in which [groupby]
    (sort=True) and [pivot_table] lay out their result. *)
Definition sorted_keys (l : list A) : list A := fold_right insert_key [] l.
End SortedKeys.

(** A Series of counts: (index label, value) in order. *)
Definition Series := list (string * nat).

(** [x.groupby(by)[col].count()] for a column without NaN. *)
Definition groupby_count (by_ : Row -> string) (l : list Row) : Series :=
  map (fun k => (k, List.length (filter (fun r => String.eqb (by_ r) k) l)))
      (sorted_keys String.compare (map by_ l)).

Fixpoint insert_asc (x : string * nat) (l : Series) : Series :=
  match l with
  | [] => [x]
  | y :: l' => if (snd x <=? snd y)%nat then x :: l else y :: insert_asc x l'
  end.

(** An ascending sort.  pandas sorts with numpy's "quicksort" kind, which
    leaves the order of equal values unspecified: it changes with the
    length of the array, the numpy version and the processor.  This sort
    keeps equal values in their order; the general statements about a
    ranking use only that the result is a sorted permutation. *)
Definition sort_asc (s : Series) : Series := fold_right insert_asc [] s.

(** [sort_values(ascending=False)]: pandas reverses the values, sorts them
    ascending and reverses the result. *)
Definition sort_values_desc (s : Series) : Series := rev (sort_asc (rev s)).

Definition head {A : Type} (n : nat) (l : list A) : list A := firstn n l.

(** The chain [.groupby(by)[col].count().sort_values(ascending=False)] of
    lines 46-51, 60-66, 227-233 and 254-260. *)
Definition groupCount (by_ : Row -> string) (l : list Row) : Series :=
  sort_values_desc (groupby_count by_ l).

(** A pivot table after [reset_index]: one entry per Year, holding the cells
    of that row by column name. *)
Definition Pivot := list (Z * list (string * nat)).

Definition fill_value : nat := 0.

(** [pivot_table(index="Year", columns="Medal", values="ID",
    aggfunc="count", fill_value=0)]: a row per Year and a column per Medal
    that occur in the frame; a pair that does not occur gets [fill_value]. *)
Definition count_ID (l : list Row) (y : Z) (m : string) : nat :=
  List.length (filter (fun r => Z.eqb (Year r) y && String.eqb (Medal r) m) l).

Definition pivot_table (l : list Row) : Pivot :=
  let years := sorted_keys Z.compare (map Year l) in
  let medals := sorted_keys String.compare (map Medal l) in
  map (fun y =>
         (y, map (fun m =>
                    let n := count_ID l y m in
                    (m, if (n =? 0)%nat then fill_value else n))
                 medals))
      years.

(** The medal columns of the table ([columns] without "Year"). *)
Definition columns (p : Pivot) : list string :=
  match p with
  | [] => []
  | (_, cells) :: _ => map fst cells
  end.

Fixpoint lookup {A B : Type} (eqb : A -> A -> bool) (k : A) (l : list (A * B)) : option B :=
  match l with
  | [] => None
  | (k', v) :: l' => if eqb k k' then Some v else lookup eqb k l'
  end.

(** The cell of row [y] and column [c]; [None] when either is absent. *)
Definition cell (p : Pivot) (y : Z) (c : string) : option nat :=
  match lookup Z.eqb y p with
  | Some cells => lookup String.eqb c cells
  | None => None
  end.

(** Lines 211-214. *)
Definition medals_type_cols (p : Pivot) : list string :=
  filter (fun c => existsb (String.eqb c) ["Gold"; "Silver"; "Bronze"]) (columns p).

(** [row[cols].sum()] *)
Definition row_sum (cols : list string) (cells : list (string * nat)) : nat :=
  fold_right (fun c acc => (match lookup String.eqb c cells with
                            | Some n => n
                            | None => 0
                            end + acc)%nat) 0%nat cols.

(** [row[c] = v]: an existing column is overwritten, a new one is added
    last. *)
Fixpoint assign (c : string) (v : nat) (cells : list (string * nat)) : list (string * nat) :=
  match cells with
  | [] => [(c, v)]
  | (c', v') :: cells' =>
      if String.eqb c c' then (c', v) :: cells' else (c', v') :: assign c v cells'
  end.

(** Line 215: the column "Total" is set on every row. *)
Definition add_Total (p : Pivot) : Pivot :=
  let cols := medals_type_cols p in
  map (fun row => (fst row, assign "Total" (row_sum cols (snd row)) (snd row))) p.

(** numpy's [rint]: to the nearest integer, a tie to the even one. *)
Definition rint (q : Q) : Z :=
  let f := Qfloor q in
  match (q - inject_Z f ?= 1 # 2)%Q with
  | Lt => f
  | Gt => f + 1
  | Eq => if Z.even f then f else f + 1
  end.

(** [round(1)]: numpy scales by 10, applies [rint], and scales back. *)
Definition round1 (q : Q) : Q := (inject_Z (rint (q * 10)) / 10)%Q.

Definition sum_Z (l : list Z) : Z := fold_right Z.add 0 l.

(** [Series.mean()] on an integer column. *)
Definition mean (l : list Z) : Q :=
  (inject_Z (sum_Z l) / inject_Z (Z.of_nat (List.length l)))%Q.

(** [x.groupby("Group")["Age"].mean().reset_index().round(1)] on a frame
    whose rows carry their Group label. *)
Definition groupby_mean_round1 (l : list (string * Row)) : list (string * Q) :=
  map (fun g =>
         (g, round1 (mean (map (fun x => Age (snd x))
                               (filter (fun x => String.eqb (fst x) g) l)))))
      (sorted_keys String.compare (map fst l)).

(* ------------------------------------------------------------------------- *)
(** ** The script's tables, as functions of the cleaned [df] *)

Definition ita (df : list Row) : list Row :=
  filter (fun r => String.eqb (NOC r) "ITA") df.

Definition ita_medals_unique (df : list Row) : list Row := dedupMedals (ita df).

Definition medals_by_sport (df : list Row) : Series :=
  groupCount Sport (ita_medals_unique df).

Definition participants_by_sport (df : list Row) : Series :=
  groupCount Sport (dedupParticipants (ita df)).

Definition season_is (s : string) (r : Row) : bool := String.eqb (Season r) s.

Definition medals_by_games_summer (df : list Row) : Series :=
  groupby_count Games (dedupMedals (filter (season_is "Summer") (ita df))).

Definition medals_by_games_winter (df : list Row) : Series :=
  groupby_count Games (dedupMedals (filter (season_is "Winter") (ita df))).

Definition ita_summer_participants (df : list Row) : Series :=
  groupby_count Games (dedupParticipants (filter (season_is "Summer") (ita df))).

Definition ita_winter_participants (df : list Row) : Series :=
  groupby_count Games (dedupParticipants (filter (season_is "Winter") (ita df))).

Definition is_Fencing (r : Row) : bool := String.eqb (Sport r) "Fencing".

Definition fencing (df : list Row) : list Row := filter is_Fencing (ita df).

Definition fencing_unique_medals (df : list Row) : list Row := dedupMedals (fencing df).

(** [medals_by_type] as of line 194, and as of line 215. *)
Definition medals_by_type (df : list Row) : Pivot := pivot_table (fencing_unique_medals df).

Definition medals_by_type_Total (df : list Row) : Pivot := add_Total (medals_by_type df).

Definition medals_by_event (df : list Row) : Series :=
  groupCount Event (fencing_unique_medals df).

Definition fencing_all (df : list Row) : list Row := filter is_Fencing df.

Definition fencing_all_unique_medals (df : list Row) : list Row := dedupMedals (fencing_all df).

Definition medals_country (df : list Row) : Series :=
  groupCount NOC (fencing_all_unique_medals df).

Definition age_compare (df : list Row) : list (string * Row) :=
  map (fun r => ("Fencing", r)) (filter is_Fencing (ita df))
  ++ map (fun r => ("Other sports", r)) (filter (fun r => negb (is_Fencing r)) (ita df)).

Definition mean_age (df : list Row) : list (string * Q) :=
  groupby_mean_round1 (age_compare df).

(** What the page shows: each table as it is handed to its chart. *)
Record Dashboard := mkDashboard {
  d_medals_by_sport : Series;
  d_participants_by_sport : Series;
  d_medals_by_games_summer : Series;
  d_medals_by_games_winter : Series;
  d_age_hist : list Z;
  d_sex_pie : list string;
  d_summer_participants : Series;
  d_winter_participants : Series;
  d_medals_by_type : Pivot;
  d_medals_by_event : Series;
  d_medals_country : Series;
  d_age_compare : list (string * Z);
  d_mean_age : list (string * Q)
}.

Definition figures (df : list Row) : Dashboard :=
  mkDashboard (head 10 (medals_by_sport df))
              (head 5 (participants_by_sport df))
              (medals_by_games_summer df)
              (medals_by_games_winter df)
              (map Age (ita df))
              (map Sex (ita df))
              (ita_summer_participants df)
              (ita_winter_participants df)
              (medals_by_type_Total df)
              (medals_by_event df)
              (head 20 (medals_country df))
              (map (fun x => (fst x, Age (snd x))) (age_compare df))
              (mean_age df).

(** Lines 196-207: [px.bar] is asked for the columns Gold, Silver and
    Bronze of the pivot and raises when one of them is not a column. *)
Definition fig_fencing_medal_types (p : Pivot) : option Pivot :=
  if forallb (fun c => existsb (String.eqb c) (columns p)) ["Gold"; "Silver"; "Bronze"]
  then Some p
  else None.

(** The tables of the page from the input frame of the script: the frame
    is cleaned once, then every table is built from the cleaned frame.  No
    page is served when the script raises: at a cast of lines 19-25, or at
    the chart of line 196 when the fencing pivot lacks a tier column, in
    which case lines 211-284 do not run. *)
Definition app_tables (raw : list RawRecord) : option Dashboard :=
  match clean raw with
  | Some df =>
      match fig_fencing_medal_types (medals_by_type df) with
      | Some _ => Some (figures df)
      | None => None
      end
  | None => None
  end.

(* ------------------------------------------------------------------------- *)
(** ** The specification's wording, for comparison with the code *)

(** Position at which key [k] is first met in the column [ks]. *)
Fixpoint first_index (k : string) (ks : list string) : nat :=
  match ks with
  | [] => O
  | k' :: ks' => if String.eqb k k' then O else S (first_index k ks')
  end.

(** The specification's tie-break: of two entries with equal counts, the one
    whose key is met first in the input comes first. *)
Fixpoint ties_in_encounter_order (ks : list string) (s : Series) : bool :=
  match s with
  | [] => true
  | x :: s' =>
      forallb (fun y => negb (snd x =? snd y)%nat
                        || (first_index (fst x) ks <? first_index (fst y) ks)%nat) s'
      && ties_in_encounter_order ks s'
  end.

(** Orders on the entries of a Series, by value. *)
Definition le_count (a b : string * nat) : Prop := (snd a <= snd b)%nat.

Definition ge_count (a b : string * nat) : Prop := (snd b <= snd a)%nat.

(** The three tiers that line 213 keeps. *)
Definition is_tier (c : string) : bool :=
  existsb (String.eqb c) ["Gold"; "Silver"; "Bronze"].

(** A cell read as a number, an absent one as 0. *)
Definition or0 (c : option nat) : nat :=
  match c with
  | Some n => n
  | None => 0
  end.

(** The specification's rounding: one decimal place, a tie away from zero. *)
Definition round1_half_away (q : Q) : Q :=
  let x := (q * 10)%Q in
  if Qle_bool 0 x
  then (inject_Z (Qfloor (x + (1 # 2))) / 10)%Q
  else (inject_Z (Qceiling (x - (1 # 2))) / 10)%Q.

(** Rewriting the Name of a row. *)
Definition set_Name (n : string) (r : Row) : Row :=
  mkRow (ID r) n (Sex r) (Age r) (Height r) (Weight r) (NOC r) (Games r)
        (Year r) (Season r) (Sport r) (Event r) (Medal r).

(* ------------------------------------------------------------------------- *)
(** ** Concrete inputs *)

Definition athlete (id : Z) (name : string) (age : option Q) (noc sport games : string)
  (year : Z) (event : string) (medal : option string) : RawRecord :=
  mkRaw id (Some name) "M" age (Some (180 # 1)) (Some (75 # 1)) noc games year
        "Summer" sport event medal.

(** The end-to-end example: a team final, three Italian fencers, one Gold
    each; the third has no recorded age. *)
Definition e2e_raw : list RawRecord :=
  [ athlete 1 "A" (Some (24 # 1)) "ITA" "Fencing" "2004 Summer" 2004 "Foil Individual" (Some "Gold");
    athlete 2 "B" (Some (25 # 1)) "ITA" "Fencing" "2004 Summer" 2004 "Foil Individual" (Some "Gold");
    athlete 3 "C" None "ITA" "Fencing" "2004 Summer" 2004 "Foil Individual" (Some "Gold") ].

Definition e2e_df : list Row :=
  Eval vm_compute in match clean e2e_raw with Some df => df | None => [] end.

(** Three Italian medals in three sports, one medal each. *)
Definition tie_raw : list RawRecord :=
  [ athlete 1 "A" (Some (24 # 1)) "ITA" "Swimming" "2004 Summer" 2004 "Swimming 100m" (Some "Gold");
    athlete 2 "B" (Some (25 # 1)) "ITA" "Athletics" "2004 Summer" 2004 "Athletics 100m" (Some "Gold");
    athlete 3 "C" (Some (26 # 1)) "ITA" "Wrestling" "2004 Summer" 2004 "Wrestling 60kg" (Some "Gold") ].

Definition tie_df : list Row :=
  Eval vm_compute in match clean tie_raw with Some df => df | None => [] end.

(** Four Italian fencers aged 24, 24, 24 and 25: a mean age of 24.25. *)
Definition mean_raw : list RawRecord :=
  [ athlete 1 "A" (Some (24 # 1)) "ITA" "Fencing" "2004 Summer" 2004 "Foil Individual" None;
    athlete 2 "B" (Some (24 # 1)) "ITA" "Fencing" "2004 Summer" 2004 "Foil Individual" None;
    athlete 3 "C" (Some (24 # 1)) "ITA" "Fencing" "2004 Summer" 2004 "Foil Individual" None;
    athlete 4 "D" (Some (25 # 1)) "ITA" "Fencing" "2004 Summer" 2004 "Foil Individual" None ].

Definition mean_df : list Row :=
  Eval vm_compute in match clean mean_raw with Some df => df | None => [] end.

(** One Italian without a recorded age among three athletes aged 20 (ITA),
    30 and 33 (USA): the median of the Italians is 20, of everyone 30. *)
Definition med_raw : list RawRecord :=
  [ athlete 1 "A" None "ITA" "Fencing" "2004 Summer" 2004 "Foil Individual" None;
    athlete 2 "B" (Some (20 # 1)) "ITA" "Fencing" "2004 Summer" 2004 "Foil Individual" None;
    athlete 3 "C" (Some (30 # 1)) "USA" "Fencing" "2004 Summer" 2004 "Foil Individual" None;
    athlete 4 "D" (Some (33 # 1)) "USA" "Fencing" "2004 Summer" 2004 "Foil Individual" None ].

Definition med_df : list Row :=
  Eval vm_compute in match clean med_raw with Some df => df | None => [] end.

(** One athlete in three events of the same Games. *)
Definition multi_raw : list RawRecord :=
  [ athlete 7 "E" (Some (22 # 1)) "ITA" "Fencing" "2004 Summer" 2004 "Foil Individual" None;
    athlete 7 "E" (Some (22 # 1)) "ITA" "Fencing" "2004 Summer" 2004 "Foil Team" (Some "Silver");
    athlete 7 "E" (Some (22 # 1)) "ITA" "Fencing" "2004 Summer" 2004 "Epee Individual" None ].

Definition multi_df : list Row :=
  Eval vm_compute in match clean multi_raw with Some df => df | None => [] end.

(* ------------------------------------------------------------------------- *)
(** ** Measures and predicates used by the further properties *)

(** The sum of the values of a Series. *)
Definition total (s : Series) : nat :=
  fold_right (fun x acc => (snd x + acc)%nat) 0%nat s.

(** The characters of a hexdigest. *)
Definition is_hex (c : ascii) : bool :=
  existsb (Ascii.eqb c) (list_ascii_of_string "0123456789abcdef").

Fixpoint all_hex (s : string) : bool :=
  match s with
  | EmptyString => true
  | String c s' => is_hex c && all_hex s'
  end.


(** Two Italian medal rows with the same Games, Event and Medal in two
    sports, the fencing row second. *)
Definition shadow_raw : list RawRecord :=
  [ athlete 1 "A" (Some (24 # 1)) "ITA" "Rowing" "2004 Summer" 2004 "Team" (Some "Gold");
    athlete 2 "B" (Some (25 # 1)) "ITA" "Fencing" "2004 Summer" 2004 "Team" (Some "Gold") ].

Definition shadow_df : list Row :=
  Eval vm_compute in match clean shadow_raw with Some df => df | None => [] end.

(** A row of the input with every numeric cell given. *)
Definition entrant (id : Z) (age height weight : option Q) (noc sport event : string)
  (medal : option string) : RawRecord :=
  mkRaw id (Some "N") "F" age height weight noc "2004 Summer" 2004 "Summer" sport
        event medal.

(** Italy on the fencing podium three times, a fourth Italian fencer
    without medal and without recorded age, and a swimmer from the USA.
    The recorded ages are 24, 24, 25 and 25, with median 24.5. *)
Definition podium_raw : list RawRecord :=
  [ entrant 1 (Some (24 # 1)) (Some (180 # 1)) (Some (75 # 1)) "ITA" "Fencing" "Foil" (Some "Gold");
    entrant 2 (Some (24 # 1)) (Some (181 # 1)) (Some (76 # 1)) "ITA" "Fencing" "Epee" (Some "Silver");
    entrant 3 (Some (25 # 1)) (Some (182 # 1)) (Some (77 # 1)) "ITA" "Fencing" "Sabre" (Some "Bronze");
    entrant 4 None (Some (183 # 1)) (Some (78 # 1)) "ITA" "Fencing" "Foil" None;
    entrant 5 (Some (25 # 1)) (Some (184 # 1)) (Some (79 # 1)) "USA" "Swimming" "Relay" None ].

Definition podium_df : list Row :=
  Eval vm_compute in match clean podium_raw with Some df => df | None => [] end.



(** A column whose recorded values are binary fractions between 0 and 255,
    whole numbers of 1024ths: whole and half years, centimetres and
    kilograms are.  binary64 holds such values, the sum of two of them and
    the half of that sum exactly, so the median that pandas computes on the
    column is the rational number that [median] gives. *)
Definition small_binary (col : list (option Q)) : bool :=
  forallb (fun cell =>
             match cell with
             | Some q => Qle_bool 0 q && Qle_bool q 255 && whole (q * 1024)
             | None => true
             end) col.



(* ========================================================================= *)
(** * Properties *)

(** ** The digest on the standard test vectors *)

Example sha256_empty :
  SHA256.hexdigest "" =
  "e3b0c44298fc1c149afbf4c8996fb92427ae41e4649b934ca495991b7852b855".
Proof. vm_compute. reflexivity. Qed.

Example sha256_abc :
  SHA256.hexdigest "abc" =
  "ba7816bf8f01cfea414140de5dae2223b00361a396177a9cb410ff61f20015ad".
Proof. vm_compute. reflexivity. Qed.

Example sha256_two_blocks :
  SHA256.hexdigest "abcdbcdecdefdefgefghfghighijhijkijkljklmklmnlmnomnopnopq" =
  "248d6a61d20638b8e5c026930c3e6039a33ce45964ff2167f6ecedd419db06c1".
Proof. vm_compute. reflexivity. Qed.

(** ** The concrete inputs clean without error *)

Lemma e2e_clean : clean e2e_raw = Some e2e_df.
Proof. vm_compute. reflexivity. Qed.

Lemma tie_clean : clean tie_raw = Some tie_df.
Proof. vm_compute. reflexivity. Qed.

Lemma mean_clean : clean mean_raw = Some mean_df.
Proof. vm_compute. reflexivity. Qed.

Lemma med_clean : clean med_raw = Some med_df.
Proof. vm_compute. reflexivity. Qed.

Lemma multi_clean : clean multi_raw = Some multi_df.
Proof. vm_compute. reflexivity. Qed.

(** ** Generic list facts *)

Lemma filter_none {A : Type} (f : A -> bool) (l : list A) :
  (forall x, In x l -> f x = false) -> filter f l = [].
Proof.
  induction l as [|a l IH]; intros H; simpl; [reflexivity|].
  rewrite (H a (or_introl eq_refl)). apply IH. intros x Hx. apply H. now right.
Qed.

Lemma lookup_map_key {A B : Type} (eqb : A -> A -> bool) (f : A -> B)
      (eqb_eq : forall a b, eqb a b = true <-> a = b) (k : A) (ks : list A) :
  In k ks -> lookup eqb k (map (fun x => (x, f x)) ks) = Some (f k).
Proof.
  induction ks as [|a ks IH]; simpl; [tauto|].
  intros [-> | Hin].
  - now rewrite (proj2 (eqb_eq k k) eq_refl).
  - destruct (eqb k a) eqn:E; [apply eqb_eq in E; now subst | now apply IH].
Qed.

Lemma lookup_map_key_none {A B : Type} (eqb : A -> A -> bool) (f : A -> B)
      (eqb_eq : forall a b, eqb a b = true <-> a = b) (k : A) (ks : list A) :
  ~ In k ks -> lookup eqb k (map (fun x => (x, f x)) ks) = None.
Proof.
  induction ks as [|a ks IH]; simpl; [reflexivity|].
  intros Hn. destruct (eqb k a) eqn:E.
  - apply eqb_eq in E. subst. tauto.
  - apply IH. tauto.
Qed.

(** ** drop_duplicates *)

Section DropDuplicatesFacts.
Context {K : Type} (eqb : K -> K -> bool) (key : Row -> K).
Hypothesis eqb_eq : forall a b, eqb a b = true <-> a = b.

Lemma existsb_seen (k : K) (seen : list K) :
  existsb (eqb k) seen = true <-> In k seen.
Proof.
  rewrite existsb_exists. split.
  - intros [x [Hx E]]. apply eqb_eq in E. now subst.
  - intros H. exists k. split; [assumption | now apply eqb_eq].
Qed.

Lemma drop_seen_In (l : list Row) : forall seen r,
  In r (drop_seen eqb key seen l) -> In r l /\ ~ In (key r) seen.
Proof.
  induction l as [|a l IH]; intros seen r; simpl; [tauto|].
  destruct (existsb (eqb (key a)) seen) eqn:E.
  - intros H. apply IH in H. tauto.
  - intros [-> | H].
    + split; [now left|]. rewrite <- existsb_seen. now rewrite E.
    + apply IH in H. simpl in H. tauto.
Qed.

Lemma drop_seen_NoDup (l : list Row) : forall seen,
  NoDup (map key (drop_seen eqb key seen l)).
Proof.
  induction l as [|a l IH]; intros seen; simpl; [constructor|].
  destruct (existsb (eqb (key a)) seen); [apply IH|].
  simpl. constructor; [|apply IH].
  rewrite in_map_iff. intros [r [Hk Hr]].
  apply drop_seen_In in Hr. simpl in Hr. destruct Hr as [_ Hr]. apply Hr. now left.
Qed.

Lemma drop_seen_same_key (l : list Row) : forall seen k,
  In k seen -> Forall (fun r => key r = k) l -> drop_seen eqb key seen l = [].
Proof.
  induction l as [|a l IH]; intros seen k Hk Hall; simpl; [reflexivity|].
  inversion Hall as [|? ? Ha Hl]; subst.
  rewrite (proj2 (existsb_seen (key a) seen) Hk). now apply IH with (k := key a).
Qed.

Lemma drop_seen_count (l : list Row) : forall seen k,
  ~ In k seen -> (exists r, In r l /\ key r = k) ->
  List.length (filter (fun r => eqb (key r) k) (drop_seen eqb key seen l)) = 1%nat.
Proof.
  induction l as [|a l IH]; intros seen k Hk [r [Hr Er]]; simpl in *; [tauto|].
  destruct (existsb (eqb (key a)) seen) eqn:E.
  - apply existsb_seen in E. apply IH; [assumption|].
    destruct Hr as [-> | Hr]; [congruence | eauto].
  - simpl. destruct (eqb (key a) k) eqn:Ek.
    + apply eqb_eq in Ek. simpl. f_equal.
      rewrite filter_none; [reflexivity|].
      intros x Hx. apply drop_seen_In in Hx. destruct Hx as [_ Hx].
      destruct (eqb (key x) k) eqn:Ex; [|reflexivity].
      apply eqb_eq in Ex. exfalso. apply Hx. left. congruence.
    + assert (Hak : key a <> k).
      { intros H. apply eqb_eq in H. congruence. }
      apply IH.
      * simpl. intros [H | H]; tauto.
      * destruct Hr as [-> | Hr]; [congruence | eauto].
Qed.

Lemma drop_duplicates_roster (r : Row) (l : list Row) :
  Forall (fun r' => key r' = key r) l -> drop_duplicates eqb key (r :: l) = [r].
Proof.
  intros H. unfold drop_duplicates. simpl. f_equal.
  apply drop_seen_same_key with (k := key r); [now left | assumption].
Qed.
End DropDuplicatesFacts.

Lemma eqb_GEM_eq (a b : string * string * string) : eqb_GEM a b = true <-> a = b.
Proof.
  destruct a as [[a1 a2] a3], b as [[b1 b2] b3]. unfold eqb_GEM. simpl.
  rewrite !andb_true_iff, !String.eqb_eq. split.
  - intros [[-> ->] ->]. reflexivity.
  - intros H. inversion H. tauto.
Qed.

Lemma eqb_GI_eq (a b : string * Z) : eqb_GI a b = true <-> a = b.
Proof.
  destruct a as [a1 a2], b as [b1 b2]. unfold eqb_GI. simpl.
  rewrite andb_true_iff, String.eqb_eq, Z.eqb_eq. split.
  - intros [-> ->]. reflexivity.
  - intros H. inversion H. tauto.
Qed.

Lemma medal_filter_In (l : list Row) (r : Row) :
  In r (filter (fun r => negb (String.eqb (Medal r) "None")) l) <->
  In r l /\ Medal r <> "None".
Proof.
  rewrite filter_In, negb_true_iff, String.eqb_neq. tauto.
Qed.

(** ** C1 and C6: the two deduplications *)

(** C1. [dedupMedals] keeps only medal-bearing rows of its input and no two
    of them with the same (Games, Event, Medal); every such combination
    that occurs in the input is kept exactly once, so a roster of k members
    sharing the combination collapses to its first row; and in the
    end-to-end example (three Italian fencers, "2004 Summer",
    "Foil Individual", Gold each) one row is left and the Gold cell of year
    2004 in the pivot is 1. *)
Theorem dedupMedals_one_row_per_medal :
  (forall l, NoDup (map key_GEM (dedupMedals l))) /\
  (forall l r, In r (dedupMedals l) -> In r l /\ Medal r <> "None") /\
  (forall l k, snd k <> "None" -> (exists r, In r l /\ key_GEM r = k) ->
     List.length (filter (fun r => eqb_GEM (key_GEM r) k) (dedupMedals l)) = 1%nat) /\
  (forall r l', Medal r <> "None" ->
     Forall (fun r' => key_GEM r' = key_GEM r) l' -> dedupMedals (r :: l') = [r]) /\
  (clean e2e_raw = Some e2e_df /\
   List.length (ita_medals_unique e2e_df) = 1%nat /\
   List.length (fencing_unique_medals e2e_df) = 1%nat /\
   cell (medals_by_type e2e_df) 2004 "Gold" = Some 1%nat).
Proof.
  repeat split.
  - intros l. apply (drop_seen_NoDup eqb_GEM key_GEM eqb_GEM_eq).
  - apply (drop_seen_In eqb_GEM key_GEM eqb_GEM_eq) in H.
    destruct H as [H _]. now apply medal_filter_In in H.
  - apply (drop_seen_In eqb_GEM key_GEM eqb_GEM_eq) in H.
    destruct H as [H _]. now apply medal_filter_In in H.
  - intros l k Hk [r [Hr Er]].
    apply (drop_seen_count eqb_GEM key_GEM eqb_GEM_eq); [intros []|].
    exists r. split; [|assumption].
    apply medal_filter_In. split; [assumption|]. subst k. exact Hk.
  - intros r l' Hm Hall. unfold dedupMedals. simpl.
    apply String.eqb_neq in Hm. rewrite Hm. simpl.
    apply (drop_duplicates_roster eqb_GEM key_GEM eqb_GEM_eq).
    clear Hm. induction Hall as [|a l Ha Hl IH]; simpl; [constructor|].
    destruct (negb (String.eqb (Medal a) "None")); [constructor|]; assumption.
Qed.

Lemma dedupMedals_one_row_per_medal_witness :
  dedupMedals e2e_df = firstn 1 e2e_df.
Proof.
  destruct dedupMedals_one_row_per_medal as [_ [_ [_ [H _]]]].
  unfold e2e_df. cbn [firstn]. apply H.
  - cbn. discriminate.
  - repeat constructor.
Defined.

(** C6. [dedupParticipants] keeps no two rows with the same (Games, ID);
    every (Games, ID) pair of the input is kept exactly once, so the k rows
    of one subject in k events of one Games collapse to the first. *)
Theorem dedupParticipants_one_row_per_subject :
  (forall l, NoDup (map key_GI (dedupParticipants l))) /\
  (forall l r, In r (dedupParticipants l) -> In r l) /\
  (forall l g i, (exists r, In r l /\ Games r = g /\ ID r = i) ->
     List.length (filter (fun r => eqb_GI (key_GI r) (g, i)) (dedupParticipants l)) = 1%nat) /\
  (forall r l', Forall (fun r' => Games r' = Games r /\ ID r' = ID r) l' ->
     dedupParticipants (r :: l') = [r]).
Proof.
  repeat split.
  - intros l. apply (drop_seen_NoDup eqb_GI key_GI eqb_GI_eq).
  - intros l r H. now apply (drop_seen_In eqb_GI key_GI eqb_GI_eq) in H.
  - intros l g i [r [Hr [Eg Ei]]].
    apply (drop_seen_count eqb_GI key_GI eqb_GI_eq); [intros []|].
    exists r. split; [assumption|]. unfold key_GI. now subst.
  - intros r l' Hall.
    apply (drop_duplicates_roster eqb_GI key_GI eqb_GI_eq).
    eapply Forall_impl; [|exact Hall].
    intros a [Hg Hi]. unfold key_GI. now rewrite Hg, Hi.
Qed.

Lemma dedupParticipants_one_row_per_subject_witness :
  clean multi_raw = Some multi_df /\
  List.length multi_df = 3%nat /\
  dedupParticipants multi_df = firstn 1 multi_df /\
  ita_summer_participants multi_df = [("2004 Summer", 1%nat)].
Proof.
  split; [exact multi_clean|]. split; [reflexivity|]. split; [|vm_compute; reflexivity].
  destruct dedupParticipants_one_row_per_subject as [_ [_ [_ H]]].
  unfold multi_df. cbn [firstn]. apply H.
  repeat constructor.
Defined.


(** ** Sorted distinct keys *)

Section SortedKeysFacts.
Context {A : Type} (cmp : A -> A -> comparison).
Hypothesis cmp_eq : forall a b, cmp a b = Eq <-> a = b.
Hypothesis cmp_antisym : forall a b, cmp a b = CompOpp (cmp b a).
Hypothesis cmp_trans : forall a b c, cmp a b = Lt -> cmp b c = Lt -> cmp a c = Lt.

Let lt (a b : A) : Prop := cmp a b = Lt.

Lemma cmp_irrefl (a : A) : ~ lt a a.
Proof.
  unfold lt. rewrite (proj2 (cmp_eq a a) eq_refl). discriminate.
Qed.

Lemma insert_key_In (k : A) (ks : list A) (x : A) :
  In x (insert_key cmp k ks) <-> x = k \/ In x ks.
Proof.
  induction ks as [|a ks IH]; simpl; [intuition|].
  destruct (cmp k a) eqn:E; simpl.
  - apply cmp_eq in E. subst. intuition.
  - intuition.
  - rewrite IH. intuition.
Qed.

Lemma sorted_keys_In (l : list A) (x : A) : In x (sorted_keys cmp l) <-> In x l.
Proof.
  induction l as [|a l IH]; simpl; [tauto|].
  rewrite insert_key_In, IH. intuition.
Qed.

Lemma insert_key_sorted (k : A) (ks : list A) :
  StronglySorted lt ks -> StronglySorted lt (insert_key cmp k ks).
Proof.
  induction ks as [|a ks IH]; intros Hs; simpl.
  - repeat constructor.
  - apply StronglySorted_inv in Hs. destruct Hs as [Hs Ha].
    destruct (cmp k a) eqn:E.
    + now constructor.
    + constructor; [now constructor|]. constructor; [exact E|].
      eapply Forall_impl; [|exact Ha]. intros y Hy. now apply cmp_trans with a.
    + constructor; [now apply IH|].
      rewrite Forall_forall in *. intros y Hy. apply insert_key_In in Hy.
      destruct Hy as [-> | Hy]; [|now apply Ha].
      unfold lt. rewrite cmp_antisym, E. reflexivity.
Qed.

Lemma sorted_keys_sorted (l : list A) : StronglySorted lt (sorted_keys cmp l).
Proof.
  induction l as [|a l IH]; simpl; [constructor | now apply insert_key_sorted].
Qed.

Lemma sorted_unique (l1 : list A) : forall l2,
  StronglySorted lt l1 -> StronglySorted lt l2 ->
  (forall x, In x l1 <-> In x l2) -> l1 = l2.
Proof.
  induction l1 as [|a l1 IH]; intros [|b l2] H1 H2 Hin.
  - reflexivity.
  - exfalso. apply (Hin b). now left.
  - exfalso. apply (Hin a). now left.
  - apply StronglySorted_inv in H1, H2.
    destruct H1 as [H1 Ha], H2 as [H2 Hb]. rewrite Forall_forall in Ha, Hb.
    assert (Eab : a = b).
    { destruct (proj1 (Hin a) (or_introl eq_refl)) as [E | Hal2]; [now symmetry|].
      destruct (proj2 (Hin b) (or_introl eq_refl)) as [E | Hbl1]; [assumption|].
      exfalso. apply (cmp_irrefl a). apply cmp_trans with b; [now apply Ha | now apply Hb]. }
    subst b. f_equal. apply IH; [assumption | assumption |].
    intros x. split; intros Hx.
    + destruct (proj1 (Hin x) (or_intror Hx)) as [E | H]; [|assumption].
      subst x. exfalso. apply (cmp_irrefl a). now apply Ha.
    + destruct (proj2 (Hin x) (or_intror Hx)) as [E | H]; [|assumption].
      subst x. exfalso. apply (cmp_irrefl a). now apply Hb.
Qed.

Lemma sorted_keys_same_elements (l l' : list A) :
  (forall x, In x l <-> In x l') -> sorted_keys cmp l = sorted_keys cmp l'.
Proof.
  intros H. apply sorted_unique; try apply sorted_keys_sorted.
  intros x. rewrite !sorted_keys_In. apply H.
Qed.

Lemma sorted_keys_NoDup (l : list A) : NoDup (sorted_keys cmp l).
Proof.
  generalize (sorted_keys_sorted l). generalize (sorted_keys cmp l). intros ks Hs.
  induction Hs as [|a ks Hs IH Ha]; constructor; [|assumption].
  intros Hin. rewrite Forall_forall in Ha. now apply (cmp_irrefl a), Ha.
Qed.

Lemma sorted_keys_nil_iff (l : list A) : sorted_keys cmp l = [] <-> l = [].
Proof.
  split; [|intros ->; reflexivity].
  destruct l as [|a l]; [reflexivity|]. intros H. exfalso.
  assert (Hin : In a (sorted_keys cmp (a :: l))) by (apply sorted_keys_In; now left).
  rewrite H in Hin. exact Hin.
Qed.
End SortedKeysFacts.

Lemma string_cmp_eq (a b : string) : String.compare a b = Eq <-> a = b.
Proof. apply String_as_OT.cmp_eq. Qed.

Lemma string_cmp_antisym (a b : string) :
  String.compare a b = CompOpp (String.compare b a).
Proof. apply String_as_OT.cmp_antisym. Qed.

Lemma string_cmp_trans (a b c : string) :
  String.compare a b = Lt -> String.compare b c = Lt -> String.compare a c = Lt.
Proof.
  intros H1 H2. apply String_as_OT.cmp_lt.
  apply String_as_OT.lt_trans with b; now apply String_as_OT.cmp_lt.
Qed.

Lemma Z_cmp_trans (a b c : Z) : (a ?= b) = Lt -> (b ?= c) = Lt -> (a ?= c) = Lt.
Proof. rewrite !Z.compare_lt_iff. lia. Qed.

Lemma Z_cmp_antisym (a b : Z) : (a ?= b) = CompOpp (b ?= a).
Proof. apply Z.compare_antisym. Qed.

Lemma string_keys_In (l : list string) (x : string) :
  In x (sorted_keys String.compare l) <-> In x l.
Proof. apply sorted_keys_In, string_cmp_eq. Qed.

Lemma year_keys_In (l : list Z) (y : Z) : In y (sorted_keys Z.compare l) <-> In y l.
Proof. apply sorted_keys_In, Z.compare_eq_iff. Qed.

Lemma string_keys_NoDup (l : list string) : NoDup (sorted_keys String.compare l).
Proof.
  apply sorted_keys_NoDup;
    [apply string_cmp_eq | apply string_cmp_antisym | apply string_cmp_trans].
Qed.

Lemma string_keys_perm (l l' : list string) :
  Permutation l l' -> sorted_keys String.compare l = sorted_keys String.compare l'.
Proof.
  intros H. apply sorted_keys_same_elements;
    [apply string_cmp_eq | apply string_cmp_antisym | apply string_cmp_trans |].
  intros x. split; apply Permutation_in; [assumption | now symmetry].
Qed.

(** ** groupby, count and sort_values *)

Lemma filter_length_perm {A : Type} (f : A -> bool) (l l' : list A) :
  Permutation l l' -> List.length (filter f l) = List.length (filter f l').
Proof.
  induction 1 as [|x l l' _ IH|x y l|l l' l'' _ IH1 _ IH2]; simpl.
  - reflexivity.
  - destruct (f x); simpl; congruence.
  - destruct (f x), (f y); reflexivity.
  - congruence.
Qed.

Lemma groupby_count_perm (by_ : Row -> string) (l l' : list Row) :
  Permutation l l' -> groupby_count by_ l = groupby_count by_ l'.
Proof.
  intros H. unfold groupby_count.
  rewrite (string_keys_perm (map by_ l) (map by_ l')) by now apply Permutation_map.
  apply map_ext. intros k. f_equal. now apply filter_length_perm.
Qed.

Lemma groupby_count_keys (by_ : Row -> string) (l : list Row) :
  map fst (groupby_count by_ l) = sorted_keys String.compare (map by_ l).
Proof.
  unfold groupby_count. rewrite map_map. simpl. apply map_id.
Qed.

Lemma groupby_count_In (by_ : Row -> string) (l : list Row) (k : string) (c : nat) :
  In (k, c) (groupby_count by_ l) <->
  In k (map by_ l) /\ c = List.length (filter (fun r => String.eqb (by_ r) k) l).
Proof.
  unfold groupby_count. rewrite in_map_iff. split.
  - intros [k' [E Hin]]. inversion E; subst. split; [|reflexivity].
    now apply string_keys_In.
  - intros [Hin ->]. exists k. split; [reflexivity | now apply string_keys_In].
Qed.

Lemma groupby_count_nil (by_ : Row -> string) : groupby_count by_ [] = [].
Proof. reflexivity. Qed.

Lemma insert_asc_perm (x : string * nat) (l : Series) :
  Permutation (insert_asc x l) (x :: l).
Proof.
  induction l as [|y l IH]; simpl; [reflexivity|].
  destruct (snd x <=? snd y)%nat; [reflexivity|].
  rewrite IH. apply perm_swap.
Qed.

Lemma sort_asc_perm (s : Series) : Permutation (sort_asc s) s.
Proof.
  induction s as [|x s IH]; simpl; [reflexivity|].
  rewrite insert_asc_perm. now constructor.
Qed.

Lemma insert_asc_sorted (x : string * nat) (l : Series) :
  StronglySorted le_count l -> StronglySorted le_count (insert_asc x l).
Proof.
  induction l as [|y l IH]; intros Hs; simpl.
  - repeat constructor.
  - apply StronglySorted_inv in Hs. destruct Hs as [Hs Hy].
    destruct (snd x <=? snd y)%nat eqn:E.
    + apply Nat.leb_le in E. constructor; [now constructor|].
      constructor; [exact E|].
      eapply Forall_impl; [|exact Hy]. unfold le_count. intros z Hz. lia.
    + apply Nat.leb_gt in E. constructor; [now apply IH|].
      rewrite Forall_forall in *. intros z Hz.
      apply (Permutation_in _ (insert_asc_perm x l)) in Hz.
      destruct Hz as [<- | Hz]; [unfold le_count; lia | now apply Hy].
Qed.

Lemma sort_asc_sorted (s : Series) : StronglySorted le_count (sort_asc s).
Proof.
  induction s as [|x s IH]; simpl; [constructor | now apply insert_asc_sorted].
Qed.

Lemma StronglySorted_snoc {A : Type} (R : A -> A -> Prop) (l : list A) (x : A) :
  StronglySorted R l -> Forall (fun y => R y x) l -> StronglySorted R (l ++ [x]).
Proof.
  induction 1 as [|a l Hs IH Ha]; intros Hx; simpl.
  - repeat constructor.
  - inversion Hx; subst. constructor; [now apply IH|].
    apply Forall_app. split; [assumption | now constructor].
Qed.

Lemma StronglySorted_rev {A : Type} (R : A -> A -> Prop) (l : list A) :
  StronglySorted R l -> StronglySorted (fun a b => R b a) (rev l).
Proof.
  induction 1 as [|a l Hs IH Ha]; simpl; [constructor|].
  apply StronglySorted_snoc; [assumption | now apply Forall_rev].
Qed.

Lemma sort_values_desc_perm (s : Series) : Permutation (sort_values_desc s) s.
Proof.
  unfold sort_values_desc.
  rewrite <- Permutation_rev, sort_asc_perm. symmetry. apply Permutation_rev.
Qed.

Lemma sort_values_desc_sorted (s : Series) :
  StronglySorted ge_count (sort_values_desc s).
Proof.
  unfold sort_values_desc.
  apply (StronglySorted_rev le_count), sort_asc_sorted.
Qed.

Lemma sort_values_desc_nil : sort_values_desc [] = [].
Proof. reflexivity. Qed.

(** ** C3: ranking *)

(** C3, as the code has it.  [groupCount] returns one (key, count) pair per
    distinct key, each with the number of rows of that key, in descending
    order of count; the grouping step lays the keys out in ascending key
    order before the sort, so the result is the same for every reordering
    of the input rows: ties are not settled by the order in which keys are
    met in the input, and the ranking is reproducible. *)
Theorem groupCount_descending_order_independent (by_ : Row -> string) (l : list Row) :
  StronglySorted ge_count (groupCount by_ l) /\
  NoDup (map fst (groupCount by_ l)) /\
  (forall k c, In (k, c) (groupCount by_ l) <->
     In k (map by_ l) /\ c = List.length (filter (fun r => String.eqb (by_ r) k) l)) /\
  (forall l', Permutation l l' -> groupCount by_ l' = groupCount by_ l).
Proof.
  unfold groupCount. repeat split.
  - apply sort_values_desc_sorted.
  - apply (Permutation_NoDup (l := map fst (groupby_count by_ l))).
    + apply Permutation_map. symmetry. apply sort_values_desc_perm.
    + rewrite groupby_count_keys. apply string_keys_NoDup.
  - apply (Permutation_in _ (sort_values_desc_perm _)) in H.
    now apply groupby_count_In in H.
  - apply (Permutation_in _ (sort_values_desc_perm _)) in H.
    now apply groupby_count_In in H.
  - intros [Hk Hc]. apply (Permutation_in (l := groupby_count by_ l)).
    + symmetry. apply sort_values_desc_perm.
    + now apply groupby_count_In.
  - intros l' Hp. f_equal. symmetry. now apply groupby_count_perm.
Qed.

Lemma groupCount_descending_order_independent_witness :
  medals_by_sport tie_df = [("Athletics", 1%nat); ("Swimming", 1%nat); ("Wrestling", 1%nat)] /\
  groupCount Sport (rev (ita_medals_unique tie_df)) = groupCount Sport (ita_medals_unique tie_df).
Proof.
  split; [vm_compute; reflexivity|].
  apply (groupCount_descending_order_independent Sport (ita_medals_unique tie_df)).
  apply Permutation_rev.
Defined.

(** C3, as the specification words it, fails: Italy's medal rows are met in
    the order Swimming, Athletics, Wrestling, one medal each, and the
    ranking lists Athletics before Swimming. *)
Lemma groupCount_encounter_order_counterexample :
  clean tie_raw = Some tie_df /\
  map Sport (ita_medals_unique tie_df) = ["Swimming"; "Athletics"; "Wrestling"] /\
  medals_by_sport tie_df = [("Athletics", 1%nat); ("Swimming", 1%nat); ("Wrestling", 1%nat)] /\
  ties_in_encounter_order (map Sport (ita_medals_unique tie_df)) (medals_by_sport tie_df) = false.
Proof.
  split; [exact tie_clean|]. vm_compute. repeat split.
Qed.

(** Older pandas sorted a Series in descending order by reversing the
    ascending sort; the ties then come out in descending key order, which
    is not the order of the input either. *)
Lemma encounter_order_fails_for_reversed_sort :
  rev (sort_asc (groupby_count Sport (ita_medals_unique tie_df)))
  = [("Wrestling", 1%nat); ("Swimming", 1%nat); ("Athletics", 1%nat)] /\
  ties_in_encounter_order (map Sport (ita_medals_unique tie_df))
    (rev (sort_asc (groupby_count Sport (ita_medals_unique tie_df)))) = false.
Proof. vm_compute. split; reflexivity. Qed.

(** Whatever the sort does with equal counts, the tie order cannot follow
    the input: the two orders of the same two rows reach the sort as the
    same Series. *)
Lemma encounter_order_fails_for_any_sort (srt : Series -> Series) :
  (forall s, Permutation (srt s) s) ->
  ~ (ties_in_encounter_order (map Sport (firstn 2 tie_df))
                             (srt (groupby_count Sport (firstn 2 tie_df))) = true /\
     ties_in_encounter_order (map Sport (rev (firstn 2 tie_df)))
                             (srt (groupby_count Sport (rev (firstn 2 tie_df)))) = true).
Proof.
  intros Hperm [H1 H2].
  rewrite <- (groupby_count_perm Sport (firstn 2 tie_df) (rev (firstn 2 tie_df))
                (Permutation_rev _)) in H2.
  assert (E : groupby_count Sport (firstn 2 tie_df)
              = [("Athletics", 1%nat); ("Swimming", 1%nat)])
    by (vm_compute; reflexivity).
  rewrite E in H1, H2.
  pose proof (Hperm [("Athletics", 1%nat); ("Swimming", 1%nat)]) as Hp.
  symmetry in Hp. apply Permutation_length_2_inv in Hp.
  destruct Hp as [Hp | Hp]; rewrite Hp in H1, H2; vm_compute in H1, H2; discriminate.
Qed.

(** ** The pivot table *)

Lemma fill_count (n : nat) : (if (n =? 0)%nat then fill_value else n) = n.
Proof.
  destruct (n =? 0)%nat eqn:E; [|reflexivity].
  apply Nat.eqb_eq in E. now subst.
Qed.

Lemma pivot_lookup (l : list Row) (y : Z) :
  In y (map Year l) ->
  lookup Z.eqb y (pivot_table l) =
  Some (map (fun m => (m, count_ID l y m)) (sorted_keys String.compare (map Medal l))).
Proof.
  intros Hy. unfold pivot_table.
  rewrite (lookup_map_key Z.eqb _ Z.eqb_eq) by now apply year_keys_In.
  f_equal. apply map_ext. intros m. now rewrite fill_count.
Qed.

Lemma pivot_lookup_none (l : list Row) (y : Z) :
  ~ In y (map Year l) -> lookup Z.eqb y (pivot_table l) = None.
Proof.
  intros Hy. unfold pivot_table.
  apply (lookup_map_key_none Z.eqb _ Z.eqb_eq). now rewrite year_keys_In.
Qed.

Lemma pivot_cell_present (l : list Row) (y : Z) (m : string) :
  In y (map Year l) -> In m (map Medal l) ->
  cell (pivot_table l) y m = Some (count_ID l y m).
Proof.
  intros Hy Hm. unfold cell. rewrite pivot_lookup by assumption.
  apply (lookup_map_key String.eqb (count_ID l y) String.eqb_eq).
  now apply string_keys_In.
Qed.

Lemma pivot_cell_absent (l : list Row) (y : Z) (m : string) :
  ~ In m (map Medal l) -> cell (pivot_table l) y m = None.
Proof.
  intros Hm. unfold cell.
  destruct (lookup Z.eqb y (pivot_table l)) as [cells|] eqn:E; [|reflexivity].
  assert (Hy : In y (map Year l)).
  { destruct (in_dec Z.eq_dec y (map Year l)) as [H | H]; [assumption|].
    rewrite pivot_lookup_none in E by assumption. discriminate. }
  rewrite pivot_lookup in E by assumption. inversion E; subst.
  apply (lookup_map_key_none String.eqb (count_ID l y) String.eqb_eq).
  now rewrite string_keys_In.
Qed.

Lemma pivot_columns (l : list Row) :
  columns (pivot_table l) = sorted_keys String.compare (map Medal l).
Proof.
  unfold pivot_table.
  destruct (sorted_keys Z.compare (map Year l)) as [|y ys] eqn:E; simpl.
  - apply (proj1 (sorted_keys_nil_iff Z.compare Z.compare_eq_iff _)) in E.
    destruct l; [reflexivity | simpl in E; discriminate E].
  - rewrite map_map. simpl. apply map_id.
Qed.

Lemma count_ID_absent (l : list Row) (y : Z) (m : string) :
  (forall r, In r l -> Year r = y -> Medal r <> m) -> count_ID l y m = 0%nat.
Proof.
  intros H. unfold count_ID. rewrite filter_none; [reflexivity|].
  intros r Hr. apply andb_false_iff.
  destruct (Z.eqb_spec (Year r) y) as [Ey | Ny]; [right | now left].
  apply String.eqb_neq. now apply H.
Qed.

Lemma lookup_map_snd {A B : Type} (eqb : A -> A -> bool) (g : B -> B) (k : A)
      (p : list (A * B)) :
  lookup eqb k (map (fun row => (fst row, g (snd row))) p) = option_map g (lookup eqb k p).
Proof.
  induction p as [|[k' v] p IH]; simpl; [reflexivity|].
  destruct (eqb k k'); [reflexivity | exact IH].
Qed.

Lemma lookup_assign_same (c : string) (v : nat) (cells : list (string * nat)) :
  lookup String.eqb c (assign c v cells) = Some v.
Proof.
  induction cells as [|[c' v'] cells IH]; simpl.
  - now rewrite String.eqb_refl.
  - destruct (String.eqb c c') eqn:E; simpl; rewrite E; [reflexivity | exact IH].
Qed.

Lemma row_sum_cells (f : string -> nat) (medals cols : list string) :
  (forall c, In c cols -> In c medals) ->
  row_sum cols (map (fun m => (m, f m)) medals) =
  fold_right (fun c acc => (f c + acc)%nat) 0%nat cols.
Proof.
  induction cols as [|c cols IH]; intros H; simpl; [reflexivity|].
  rewrite (lookup_map_key String.eqb f String.eqb_eq) by (apply H; now left).
  rewrite IH; [reflexivity|]. intros c' Hc'. apply H. now right.
Qed.

(** The value of tier [t] in a row whose columns are [ks]: absent is 0. *)
Lemma existsb_eqb_In (t : string) (ks : list string) :
  existsb (String.eqb t) ks = true <-> In t ks.
Proof.
  rewrite existsb_exists. split.
  - intros [x [Hx E]]. apply String.eqb_eq in E. now subst.
  - intros H. exists t. split; [assumption | apply String.eqb_refl].
Qed.

Ltac closed_eqb :=
  repeat match goal with
  | |- context [String.eqb ?a ?b] =>
      let v := eval vm_compute in (String.eqb a b) in
      match v with
      | true => change (String.eqb a b) with true
      | false => change (String.eqb a b) with false
      end
  end.

Lemma sum_tiers (f : string -> nat) (ks : list string) :
  NoDup ks ->
  fold_right (fun c acc => (f c + acc)%nat) 0%nat (filter is_tier ks) =
  ((if existsb (String.eqb "Gold") ks then f "Gold" else 0)
   + (if existsb (String.eqb "Silver") ks then f "Silver" else 0)
   + (if existsb (String.eqb "Bronze") ks then f "Bronze" else 0))%nat.
Proof.
  induction 1 as [|a ks Ha Hnd IH]; [reflexivity|].
  assert (Hout : forall t, t = a -> existsb (String.eqb t) ks = false).
  { intros t ->. destruct (existsb (String.eqb a) ks) eqn:E; [|reflexivity].
    apply existsb_eqb_In in E. contradiction. }
  cbn [filter existsb]. unfold is_tier at 1. cbn [existsb].
  rewrite (String.eqb_sym "Gold" a), (String.eqb_sym "Silver" a), (String.eqb_sym "Bronze" a).
  destruct (String.eqb_spec a "Gold") as [-> | nG].
  - cbn [orb fold_right]. rewrite IH, (Hout "Gold" eq_refl). closed_eqb. cbn [orb].
    repeat match goal with |- context [if ?b then _ else _] => destruct b end; lia.
  - destruct (String.eqb_spec a "Silver") as [-> | nS].
    + cbn [orb fold_right]. rewrite IH, (Hout "Silver" eq_refl). closed_eqb. cbn [orb].
    repeat match goal with |- context [if ?b then _ else _] => destruct b end; lia.
    + destruct (String.eqb_spec a "Bronze") as [-> | nB].
      * cbn [orb fold_right]. rewrite IH, (Hout "Bronze" eq_refl). closed_eqb. cbn [orb].
    repeat match goal with |- context [if ?b then _ else _] => destruct b end; lia.
      * cbn [orb]. exact IH.
Qed.

Lemma or0_cell (l : list Row) (y : Z) (t : string) :
  In y (map Year l) ->
  or0 (cell (pivot_table l) y t) =
  (if existsb (String.eqb t) (sorted_keys String.compare (map Medal l))
   then count_ID l y t else 0)%nat.
Proof.
  intros Hy.
  destruct (existsb (String.eqb t) (sorted_keys String.compare (map Medal l))) eqn:E.
  - apply (proj1 (existsb_eqb_In _ _)) in E. apply (proj1 (string_keys_In _ _)) in E.
    rewrite pivot_cell_present by assumption. reflexivity.
  - rewrite pivot_cell_absent; [reflexivity|].
    intros Hin. apply (proj2 (string_keys_In _ _)) in Hin.
    apply (proj2 (existsb_eqb_In _ _)) in Hin. congruence.
Qed.

Lemma total_cell (l : list Row) (y : Z) :
  In y (map Year l) ->
  cell (add_Total (pivot_table l)) y "Total" =
  Some (or0 (cell (pivot_table l) y "Gold") + or0 (cell (pivot_table l) y "Silver")
        + or0 (cell (pivot_table l) y "Bronze"))%nat.
Proof.
  intros Hy. unfold cell at 1, add_Total. cbv zeta.
  rewrite (lookup_map_snd Z.eqb
             (fun cells => assign "Total" (row_sum (medals_type_cols (pivot_table l)) cells) cells)).
  rewrite pivot_lookup by assumption. cbn [option_map].
  rewrite lookup_assign_same. f_equal.
  unfold medals_type_cols. rewrite pivot_columns.
  rewrite row_sum_cells by (intros c Hc; now apply filter_In in Hc).
  change (filter (fun c => existsb (String.eqb c) ["Gold"; "Silver"; "Bronze"]))
    with (filter is_tier).
  rewrite sum_tiers by apply string_keys_NoDup.
  now rewrite !or0_cell.
Qed.

(** ** Rounding to one decimal place *)

Lemma rint_nearest_even (q : Q) :
  (inject_Z (rint q) - (1 # 2) <= q <= inject_Z (rint q) + (1 # 2))%Q /\
  ((q == inject_Z (rint q) - (1 # 2) \/ q == inject_Z (rint q) + (1 # 2))%Q ->
   Z.even (rint q) = true).
Proof.
  unfold rint.
  pose proof (Qfloor_le q) as Hlo. pose proof (Qlt_floor q) as Hhi.
  rewrite inject_Z_plus in Hhi. change (inject_Z 1) with 1%Q in Hhi.
  set (f := Qfloor q) in *.
  destruct (Qcompare_spec (q - inject_Z f) (1 # 2)) as [E | L | G].
  - destruct (Z.even f) eqn:Ev.
    + split; [lra | intros _; exact Ev].
    + rewrite inject_Z_plus. change (inject_Z 1) with 1%Q.
      split; [lra|]. intros _.
      change (f + 1)%Z with (Z.succ f). rewrite Z.even_succ, <- Z.negb_even, Ev.
      reflexivity.
  - split; [lra|]. intros [H | H]; lra.
  - rewrite inject_Z_plus. change (inject_Z 1) with 1%Q.
    split; [lra|]. intros [H | H]; lra.
Qed.

Lemma groupby_mean_round1_In (l : list (string * Row)) (g : string) (m : Q) :
  In (g, m) (groupby_mean_round1 l) ->
  In g (map fst l) /\
  m = round1 (mean (map (fun x => Age (snd x))
                        (filter (fun x => String.eqb (fst x) g) l))).
Proof.
  unfold groupby_mean_round1. rewrite in_map_iff.
  intros [g' [E Hin]]. inversion E; subst. split; [|reflexivity].
  now apply string_keys_In.
Qed.

Lemma age_compare_groups (df : list Row) (g : string) :
  In g (map fst (age_compare df)) -> g = "Fencing" \/ g = "Other sports".
Proof.
  unfold age_compare. rewrite map_app, in_app_iff, !map_map. simpl.
  rewrite !in_map_iff. intros [[r [E _]] | [r [E _]]]; auto.
Qed.

Lemma group_rows_nonempty (l : list (string * Row)) (g : string) :
  In g (map fst l) ->
  map (fun x => Age (snd x)) (filter (fun x => String.eqb (fst x) g) l) <> [].
Proof.
  rewrite in_map_iff. intros [x [E Hx]] Hnil.
  assert (Hin : In x (filter (fun x => String.eqb (fst x) g) l)).
  { apply filter_In. split; [assumption|]. rewrite E. apply String.eqb_refl. }
  apply (in_map (fun x => Age (snd x))) in Hin. rewrite Hnil in Hin. exact Hin.
Qed.

(** ** The preprocessing block *)


Lemma traverse_nth {A B : Type} (f : A -> option B) (l : list A) : forall l' i x,
  traverse f l = Some l' -> nth_error l i = Some x ->
  exists y, nth_error l' i = Some y /\ f x = Some y.
Proof.
  induction l as [|a l IH]; simpl; intros l' i x H Hi.
  - destruct i; discriminate.
  - destruct (f a) as [b|] eqn:Ea; [|discriminate].
    destruct (traverse f l) as [bs|]; [|discriminate].
    inversion H; subst. destruct i as [|i]; simpl in *.
    + inversion Hi; subst. eauto.
    + now apply IH.
Qed.

Lemma traverse_In {A B : Type} (f : A -> option B) (l : list A) : forall l' y,
  traverse f l = Some l' -> In y l' -> exists x, In x l /\ f x = Some y.
Proof.
  induction l as [|a l IH]; simpl; intros l' y H Hy.
  - inversion H; subst. destruct Hy.
  - destruct (f a) as [b|] eqn:Ea; [|discriminate].
    destruct (traverse f l) as [bs|]; [|discriminate].
    inversion H; subst. destruct Hy as [<- | Hy]; [eauto|].
    destruct (IH bs y eq_refl Hy) as [x [Hx Hf]]. eauto.
Qed.

Lemma traverse_map_map {A B C : Type} (f : B -> option C) (h : A -> B) (g : A -> C)
      (l : list A) :
  (forall x, In x l -> f (h x) = Some (g x)) -> traverse f (map h l) = Some (map g l).
Proof.
  induction l as [|a l IH]; simpl; intros H; [reflexivity|].
  rewrite (H a (or_introl eq_refl)), IH; [reflexivity|].
  intros x Hx. apply H. now right.
Qed.

Lemma is_int64_None (col : list (option Q)) : In None col -> is_int64 col = false.
Proof.
  intros H. unfold is_int64. apply not_true_is_false. intros E.
  rewrite forallb_forall in E. specialize (E None H). discriminate E.
Qed.

(** What a cast that goes through says about the cell and the value stored. *)
Lemma astype_uint8_inv (int64 : bool) (x : option Q) (z : Z) :
  astype_uint8 int64 x = Some z ->
  exists q, x = Some q /\ (int64 = false -> (0 <= q)%Q) /\ 0 <= z <= 255 /\
            ((q < inject_Z (2 ^ 31))%Q -> z = Qfloor q mod 256).
Proof.
  destruct x as [q|]; unfold astype_uint8; [|discriminate].
  pose proof (Z.mod_pos_bound (Qfloor q) 256 ltac:(lia)) as Hm.
  destruct int64.
  - intros H. injection H as <-. exists q.
    split; [reflexivity|]. split; [discriminate|]. split; [lia | reflexivity].
  - destruct (Qle_bool 0 q) eqn:E; [|discriminate].
    apply Qle_bool_iff in E.
    destruct (Qle_bool (inject_Z (2 ^ 31)) q) eqn:E2; intros H; injection H as <-;
      exists q; (split; [reflexivity|]); (split; [intros _; exact E|]).
    + split; [lia|]. intros Hlt. apply Qle_bool_iff in E2.
      exfalso. now apply (Qlt_not_le _ _ Hlt).
    + split; [lia | reflexivity].
Qed.

Lemma astype_uint8_range (int64 : bool) (x : option Q) (z : Z) :
  astype_uint8 int64 x = Some z -> 0 <= z <= 255.
Proof.
  intros H. apply astype_uint8_inv in H. now destruct H as [q [_ [_ [H _]]]].
Qed.

Lemma Qfloor_small (q : Q) : (0 <= q)%Q -> (q < 256)%Q -> Qfloor q mod 256 = Qfloor q.
Proof.
  intros H0 H1. apply Z.mod_small. split.
  - change 0 with (Qfloor 0). now apply Qfloor_resp_le.
  - rewrite Zlt_Qlt. apply Qle_lt_trans with q; [apply Qfloor_le | exact H1].
Qed.

(** Between 0 and 256 the cast keeps the integer part, whatever the dtype
    of the column. *)
Lemma astype_uint8_small (int64 : bool) (q : Q) (z : Z) :
  astype_uint8 int64 (Some q) = Some z -> (0 <= q)%Q -> (q < 256)%Q -> z = Qfloor q.
Proof.
  intros H H0 H1. apply astype_uint8_inv in H. destruct H as [q' [E [_ [_ Hz]]]].
  inversion E; subst q'. rewrite Hz; [now apply Qfloor_small|].
  apply Qlt_trans with 256%Q; [exact H1 | reflexivity].
Qed.

Lemma astype_uint8_id (int64 : bool) (z : Z) :
  0 <= z <= 255 -> astype_uint8 int64 (Some (inject_Z z)) = Some z.
Proof.
  intros H. unfold astype_uint8. rewrite Qfloor_Z, Z.mod_small by lia.
  destruct int64; [reflexivity|].
  assert (E : Qle_bool 0 (inject_Z z) = true).
  { apply Qle_bool_iff. change 0%Q with (inject_Z 0). rewrite <- Zle_Qle. lia. }
  rewrite E.
  destruct (Qle_bool (inject_Z (2 ^ 31)) (inject_Z z)) eqn:E2; [|reflexivity].
  apply Qle_bool_iff in E2. rewrite <- Zle_Qle in E2. lia.
Qed.

Lemma astype_uint32_range (x : Z) : 0 <= astype_uint32 x < 2 ^ 32.
Proof. unfold astype_uint32. apply Z.mod_pos_bound. lia. Qed.

Lemma astype_int16_range (x : Z) : - 2 ^ 15 <= astype_int16 x < 2 ^ 15.
Proof.
  unfold astype_int16. pose proof (Z.mod_pos_bound (x + 2 ^ 15) (2 ^ 16)). lia.
Qed.

Lemma astype_uint32_id (x : Z) : 0 <= x < 2 ^ 32 -> astype_uint32 x = x.
Proof. intros H. unfold astype_uint32. now apply Z.mod_small. Qed.

Lemma astype_int16_id (x : Z) : - 2 ^ 15 <= x < 2 ^ 15 -> astype_int16 x = x.
Proof. intros H. unfold astype_int16. rewrite Z.mod_small; lia. Qed.

(** What a successful cast of a row says about each column. *)
Lemma astype_row_inv (ba bh bw : bool) (r : RawRecord) (c : Row) :
  astype_row ba bh bw r = Some c ->
  astype_uint8 ba (raw_Age r) = Some (Age c) /\
  astype_uint8 bh (raw_Height r) = Some (Height c) /\
  astype_uint8 bw (raw_Weight r) = Some (Weight c) /\
  c = mkRow (astype_uint32 (raw_ID r)) (anonymise (raw_Name r)) (raw_Sex r)
            (Age c) (Height c) (Weight c) (raw_NOC r) (raw_Games r)
            (astype_int16 (raw_Year r)) (raw_Season r) (raw_Sport r) (raw_Event r)
            (fillna_Medal (raw_Medal r)).
Proof.
  unfold astype_row.
  destruct (astype_uint8 ba (raw_Age r)) as [a|]; [|discriminate].
  destruct (astype_uint8 bh (raw_Height r)) as [h|]; [|discriminate].
  destruct (astype_uint8 bw (raw_Weight r)) as [w|]; [|discriminate].
  intros H. inversion H; subst. simpl. auto.
Qed.

(** Row [i] of the cleaned frame comes from row [i] of the input. *)
Lemma clean_nth (raw : list RawRecord) (df : list Row) (i : nat) (r : RawRecord) :
  clean raw = Some df -> nth_error raw i = Some r ->
  exists c, nth_error df i = Some c /\
    nth_error (fillna_medians raw) i
    = Some (fillna_row (median (map raw_Age raw)) (median (map raw_Height raw))
                       (median (map raw_Weight raw)) r) /\
    astype_row (is_int64 (map raw_Age raw)) (is_int64 (map raw_Height raw))
               (is_int64 (map raw_Weight raw))
               (fillna_row (median (map raw_Age raw)) (median (map raw_Height raw))
                           (median (map raw_Weight raw)) r) = Some c.
Proof.
  intros Hc Hi. unfold clean in Hc.
  assert (Hf : nth_error (fillna_medians raw) i
               = Some (fillna_row (median (map raw_Age raw)) (median (map raw_Height raw))
                                  (median (map raw_Weight raw)) r)).
  { unfold fillna_medians. cbv zeta. rewrite nth_error_map, Hi. reflexivity. }
  destruct (traverse_nth _ _ _ _ _ Hc Hf) as [c [H1 H2]].
  exists c. auto.
Qed.

Lemma clean_In (raw : list RawRecord) (df : list Row) (c : Row) :
  clean raw = Some df -> In c df ->
  exists r, In r (fillna_medians raw) /\
            astype_row (is_int64 (map raw_Age raw)) (is_int64 (map raw_Height raw))
                       (is_int64 (map raw_Weight raw)) r = Some c.
Proof.
  intros Hc Hin. unfold clean in Hc. now apply (traverse_In _ _ _ _ Hc).
Qed.

(** The dtypes of the cleaned frame. *)
Lemma clean_dtypes (raw : list RawRecord) (df : list Row) (c : Row) :
  clean raw = Some df -> In c df ->
  0 <= Age c <= 255 /\ 0 <= Height c <= 255 /\ 0 <= Weight c <= 255 /\
  0 <= ID c < 2 ^ 32 /\ - 2 ^ 15 <= Year c < 2 ^ 15.
Proof.
  intros Hc Hin. destruct (clean_In _ _ _ Hc Hin) as [r [_ Hr]].
  apply astype_row_inv in Hr. destruct Hr as [Ha [Hh [Hw E]]].
  apply astype_uint8_range in Ha, Hh, Hw.
  repeat split; try lia; rewrite E; simpl;
    try apply astype_uint32_range; apply astype_int16_range.
Qed.


(** A NaN cell that casts was filled with the column median, which is not
    negative: a column with a NaN cell is a float64 column. *)
Lemma imputed_cell (col : list (option Q)) (z : Z) :
  In None col ->
  astype_uint8 (is_int64 col) (fillna (median col) None) = Some z ->
  exists m, median col = Some m /\ (0 <= m)%Q /\ ((m < 256)%Q -> z = Qfloor m).
Proof.
  intros Hn H. rewrite (is_int64_None col Hn) in H. cbn [fillna] in H.
  destruct (median col) as [m|] eqn:Em; [|discriminate H].
  pose proof (astype_uint8_inv _ _ _ H) as [q [E [H0 _]]]. inversion E; subst q.
  exists m. split; [reflexivity|]. split; [now apply H0|].
  intros Hlt. apply (astype_uint8_small _ _ _ H); [now apply H0 | exact Hlt].
Qed.

(** ** C4: cleaning a cleaned frame *)

Lemma fillna_medians_as_raw (df : list Row) :
  fillna_medians (map as_raw df) = map as_raw df.
Proof.
  unfold fillna_medians. cbv zeta. rewrite map_map. apply map_ext.
  intros c. reflexivity.
Qed.

Lemma astype_row_as_raw (ba bh bw : bool) (c : Row) :
  0 <= Age c <= 255 -> 0 <= Height c <= 255 -> 0 <= Weight c <= 255 ->
  0 <= ID c < 2 ^ 32 -> - 2 ^ 15 <= Year c < 2 ^ 15 ->
  astype_row ba bh bw (as_raw c) = Some (set_Name (SHA256.hexdigest (Name c)) c).
Proof.
  intros Ha Hh Hw Hi Hy. unfold astype_row, as_raw.
  cbn [raw_Age raw_Height raw_Weight raw_ID raw_Name raw_Sex raw_NOC raw_Games
       raw_Year raw_Season raw_Sport raw_Event raw_Medal].
  rewrite !astype_uint8_id by assumption.
  rewrite astype_uint32_id, astype_int16_id by assumption.
  reflexivity.
Qed.

(** C4, as the code has it.  Cleaning an already cleaned frame succeeds and
    leaves every column but Name as it is: no cell is missing, the casts
    keep values already in range, the Medal column has no gap.  The Name
    column holds digests, and each is replaced by the digest of that
    digest. *)
Theorem clean_twice_digests_Name_again (raw : list RawRecord) (df : list Row) :
  clean raw = Some df ->
  clean (map as_raw df) =
  Some (map (fun c => set_Name (SHA256.hexdigest (Name c)) c) df).
Proof.
  intros Hc. unfold clean. rewrite fillna_medians_as_raw.
  apply traverse_map_map. intros c Hin.
  destruct (clean_dtypes raw df c Hc Hin) as [Ha [Hh [Hw [Hi Hy]]]].
  now apply astype_row_as_raw.
Qed.

Lemma clean_twice_digests_Name_again_witness :
  clean (map as_raw e2e_df) =
  Some (map (fun c => set_Name (SHA256.hexdigest (Name c)) c) e2e_df).
Proof.
  apply (clean_twice_digests_Name_again e2e_raw e2e_df).
  vm_compute. reflexivity.
Defined.

(** C4, as the specification words it, fails: cleaning the cleaned
    end-to-end frame changes its rows.  The first Name, the digest of "A",
    becomes the digest of that digest. *)
Lemma clean_twice_counterexample :
  clean e2e_raw = Some e2e_df /\
  map Name e2e_df =
    [ "559aead08264d5795d3909718cdd05abd49572e84fe55590eef31a88a08fdffd";
      "df7e70e5021544f4834bbee64a9e3789febc4be81470df629cad6ddb03320a5c";
      "6b23c0d5f35d1b11f9b683f0b0a617355deb11277d91ae091d399c655b87940d" ] /\
  option_map (map Name) (clean (map as_raw e2e_df)) =
    Some [ "599d48457e4996df84cbfeb973cd109827c0de9fa211c0d062eab13584ea6bb8";
           "acab60e972cca11cd0571b8d08fe9bfc6521565c601a3785c5f5fb0a406279e6";
           "a208c3b59eecf373c4ef50b06a4236cba1002b2919651677c7c520b67627aa2a" ] /\
  clean (map as_raw e2e_df) <> Some e2e_df.
Proof.
  split; [exact e2e_clean|]. split; [vm_compute; reflexivity|].
  split; [vm_compute; reflexivity|].
  intros H. apply (f_equal (option_map (map Name))) in H.
  vm_compute in H. discriminate H.
Qed.

(** ** C8: the Name column *)

(** Equal names have equal digests (the digest is a function of the name),
    and the cleaned Name is the digest of the input Name, nothing else of
    the input Name reaching the cleaned frame. *)
Lemma anonymise_deterministic (x y : option string) :
  str x = str y -> anonymise x = anonymise y.
Proof. unfold anonymise. now intros ->. Qed.

Lemma clean_Name_is_digest (raw : list RawRecord) (df : list Row) (i : nat)
      (r : RawRecord) (c : Row) :
  clean raw = Some df -> nth_error raw i = Some r -> nth_error df i = Some c ->
  Name c = SHA256.hexdigest (str (raw_Name r)).
Proof.
  intros Hc Hi Hd. destruct (clean_nth raw df i r Hc Hi) as [c' [Hd' [_ Hrow]]].
  assert (c' = c) by congruence. subst c'.
  apply astype_row_inv in Hrow. destruct Hrow as [_ [_ [_ E]]].
  rewrite E. reflexivity.
Qed.

(** ** Filters that match nothing *)


(* ========================================================================= *)
(** * Further properties of the tables *)

(** ** Counting by group keeps every row *)

Lemma total_perm (s s' : Series) : Permutation s s' -> total s = total s'.
Proof.
  induction 1 as [|x l l' _ IH|x y l|l l' l'' _ IH1 _ IH2]; simpl; lia.
Qed.

Lemma total_one_key (by_ : Row -> string) (r : Row) (ks : list string) :
  NoDup ks -> In (by_ r) ks ->
  fold_right (fun k acc => ((if String.eqb (by_ r) k then 1 else 0) + acc)%nat) 0%nat ks
  = 1%nat.
Proof.
  induction 1 as [|k ks Hk Hnd IH]; simpl; [tauto|].
  intros [E | Hin].
  - subst k. rewrite String.eqb_refl.
    assert (H0 : fold_right
                   (fun k acc => ((if String.eqb (by_ r) k then 1 else 0) + acc)%nat)
                   0%nat ks = 0%nat).
    { clear IH Hnd. induction ks as [|k' ks IH']; simpl; [reflexivity|].
      destruct (String.eqb_spec (by_ r) k') as [E | N].
      - exfalso. apply Hk. left. now symmetry.
      - apply IH'. intros H. apply Hk. now right. }
    rewrite H0. reflexivity.
  - destruct (String.eqb_spec (by_ r) k) as [E | N].
    + exfalso. apply Hk. now rewrite <- E.
    + simpl. now apply IH.
Qed.

Lemma total_counts (by_ : Row -> string) (ks : list string) (l : list Row) :
  NoDup ks -> incl (map by_ l) ks ->
  total (map (fun k => (k, List.length (filter (fun r => String.eqb (by_ r) k) l))) ks)
  = List.length l.
Proof.
  intros Hnd. induction l as [|r l IH]; intros Hincl.
  - simpl. clear Hnd Hincl. induction ks as [|k ks IH]; simpl; [reflexivity | exact IH].
  - assert (Hl : incl (map by_ l) ks).
    { intros k Hk. apply Hincl. now right. }
    assert (Hr : In (by_ r) ks) by (apply Hincl; now left).
    specialize (IH Hl).
    change (List.length (r :: l)) with (1 + List.length l)%nat.
    rewrite <- IH, <- (total_one_key by_ r ks Hnd Hr).
    clear. induction ks as [|k ks IH]; [reflexivity|].
    cbn [map total fold_right snd filter] in *.
    destruct (String.eqb (by_ r) k); cbn [List.length]; unfold total in IH; lia.
Qed.

Lemma groupby_count_total (by_ : Row -> string) (l : list Row) :
  total (groupby_count by_ l) = List.length l.
Proof.
  unfold groupby_count. apply total_counts; [apply string_keys_NoDup|].
  intros k Hk. now apply string_keys_In.
Qed.

(** X1.  A ranking accounts for every row exactly once: the counts of
    [groupCount] add up to the number of rows, and no entry has a count of
    zero. *)
Theorem groupCount_counts_every_row (by_ : Row -> string) (l : list Row) :
  total (groupCount by_ l) = List.length l /\
  total (groupby_count by_ l) = List.length l /\
  (forall k c, In (k, c) (groupCount by_ l) -> (1 <= c)%nat).
Proof.
  split; [|split].
  - unfold groupCount. rewrite (total_perm _ _ (sort_values_desc_perm _)).
    apply groupby_count_total.
  - apply groupby_count_total.
  - intros k c Hin. unfold groupCount in Hin.
    apply (Permutation_in _ (sort_values_desc_perm _)) in Hin.
    apply groupby_count_In in Hin. destruct Hin as [Hk ->].
    apply in_map_iff in Hk. destruct Hk as [r [E Hr]].
    assert (Hin : In r (filter (fun r => String.eqb (by_ r) k) l)).
    { apply filter_In. split; [assumption|]. rewrite E. apply String.eqb_refl. }
    destruct (filter (fun r => String.eqb (by_ r) k) l); [destruct Hin | simpl; lia].
Qed.

(** ** The top of a ranking *)

Lemma StronglySorted_app_inv {A : Type} (R : A -> A -> Prop) (l1 l2 : list A) :
  StronglySorted R (l1 ++ l2) -> forall x y, In x l1 -> In y l2 -> R x y.
Proof.
  induction l1 as [|a l1 IH]; simpl; intros Hs x y Hx Hy; [destruct Hx|].
  apply StronglySorted_inv in Hs. destruct Hs as [Hs Ha].
  destruct Hx as [<- | Hx].
  - rewrite Forall_forall in Ha. apply Ha. apply in_or_app. now right.
  - now apply IH.
Qed.

(** X2.  [head(n)] of a ranking is its top: it has [n] entries, or all of
    them when there are fewer, and no entry left out has a larger count
    than an entry kept. *)
Theorem head_of_ranking_is_top (by_ : Row -> string) (l : list Row) (n : nat) :
  List.length (head n (groupCount by_ l)) = Nat.min n (List.length (groupCount by_ l)) /\
  (forall x y, In x (head n (groupCount by_ l)) -> In y (skipn n (groupCount by_ l)) ->
     (snd y <= snd x)%nat) /\
  groupCount by_ l = head n (groupCount by_ l) ++ skipn n (groupCount by_ l).
Proof.
  unfold head. split; [apply length_firstn|]. split.
  - intros x y Hx Hy.
    apply (StronglySorted_app_inv ge_count (firstn n (groupCount by_ l))
                                  (skipn n (groupCount by_ l))); try assumption.
    rewrite firstn_skipn. unfold groupCount. apply sort_values_desc_sorted.
  - symmetry. apply firstn_skipn.
Qed.

(** ** The age comparison frame *)

Lemma filter_partition_perm {A : Type} (f : A -> bool) (l : list A) :
  Permutation (filter f l ++ filter (fun x => negb (f x)) l) l.
Proof.
  induction l as [|a l IH]; simpl; [constructor|].
  destruct (f a); simpl.
  - now constructor.
  - symmetry. apply Permutation_cons_app. now symmetry.
Qed.

(** X3.  [age_compare] holds every Italian row exactly once, the fencing
    rows first, and a row carries the label "Fencing" exactly when its
    sport is Fencing, "Other sports" otherwise. *)
Theorem age_compare_partitions_ita (df : list Row) :
  Permutation (map snd (age_compare df)) (ita df) /\
  List.length (age_compare df) = List.length (ita df) /\
  map snd (age_compare df) = fencing df ++ filter (fun r => negb (is_Fencing r)) (ita df) /\
  (forall g r, In (g, r) (age_compare df) ->
     (Sport r = "Fencing" /\ g = "Fencing") \/ (Sport r <> "Fencing" /\ g = "Other sports")).
Proof.
  assert (E : map snd (age_compare df)
              = fencing df ++ filter (fun r => negb (is_Fencing r)) (ita df)).
  { unfold age_compare, fencing. rewrite map_app, !map_map. simpl. now rewrite !map_id. }
  split; [|split; [|split]].
  - rewrite E. apply filter_partition_perm.
  - rewrite <- (length_map snd), E.
    apply Permutation_length, filter_partition_perm.
  - exact E.
  - intros g r Hin. unfold age_compare in Hin. apply in_app_or in Hin.
    destruct Hin as [Hin | Hin]; apply in_map_iff in Hin;
      destruct Hin as [r' [Er Hr]]; inversion Er; subst; apply filter_In in Hr;
      destruct Hr as [_ Hr]; unfold is_Fencing in Hr.
    + left. apply String.eqb_eq in Hr. auto.
    + right. apply negb_true_iff, String.eqb_neq in Hr. auto.
Qed.

(** ** Tables that are grouped but not ranked *)

Lemma StronglySorted_map {A B : Type} (R : A -> A -> Prop) (R' : B -> B -> Prop)
      (f : A -> B) (l : list A) :
  (forall a b, R a b -> R' (f a) (f b)) ->
  StronglySorted R l -> StronglySorted R' (map f l).
Proof.
  intros HR. induction 1 as [|a l Hs IH Ha]; simpl; constructor; [assumption|].
  apply Forall_map. eapply Forall_impl; [|exact Ha]. intros b. apply HR.
Qed.

Lemma string_keys_sorted (l : list string) :
  StronglySorted (fun a b => String.compare a b = Lt) (sorted_keys String.compare l).
Proof.
  apply sorted_keys_sorted;
    [apply string_cmp_eq | apply string_cmp_antisym | apply string_cmp_trans].
Qed.

Lemma year_keys_sorted (l : list Z) :
  StronglySorted Z.lt (sorted_keys Z.compare l).
Proof.
  apply (sorted_keys_sorted Z.compare Z.compare_eq_iff Z_cmp_antisym Z_cmp_trans).
Qed.

(** X4.  A table that is grouped and counted without [sort_values] (the
    medals and the participants per Games) lists every key of the frame
    once, in strictly ascending key order, with the number of rows of that
    key. *)
Theorem groupby_count_ascending_keys (by_ : Row -> string) (l : list Row) :
  StronglySorted (fun a b => String.compare (fst a) (fst b) = Lt) (groupby_count by_ l) /\
  (forall k, In k (map fst (groupby_count by_ l)) <-> In k (map by_ l)) /\
  (forall k, In k (map by_ l) ->
     lookup String.eqb k (groupby_count by_ l)
     = Some (List.length (filter (fun r => String.eqb (by_ r) k) l))) /\
  (forall k, ~ In k (map by_ l) -> lookup String.eqb k (groupby_count by_ l) = None).
Proof.
  split; [|split; [|split]].
  - unfold groupby_count.
    apply (StronglySorted_map (fun a b => String.compare a b = Lt)); [auto|].
    apply string_keys_sorted.
  - intros k. rewrite groupby_count_keys. apply string_keys_In.
  - intros k Hk. unfold groupby_count.
    apply (lookup_map_key String.eqb
             (fun k => List.length (filter (fun r => String.eqb (by_ r) k) l))
             String.eqb_eq).
    now apply string_keys_In.
  - intros k Hk. unfold groupby_count.
    apply (lookup_map_key_none String.eqb
             (fun k => List.length (filter (fun r => String.eqb (by_ r) k) l))
             String.eqb_eq).
    now rewrite string_keys_In.
Qed.

Lemma groupby_count_ascending_keys_witness :
  medals_by_games_summer tie_df = [("2004 Summer", 3%nat)] /\
  lookup String.eqb "2004 Summer" (groupby_count Games tie_df) = Some 3%nat.
Proof.
  split; [vm_compute; reflexivity|].
  apply (groupby_count_ascending_keys Games tie_df).
  vm_compute. left. reflexivity.
Defined.

(** ** The shape of the pivot table *)

Lemma assign_fresh (c : string) (v : nat) (cells : list (string * nat)) :
  ~ In c (map fst cells) -> assign c v cells = cells ++ [(c, v)].
Proof.
  induction cells as [|[c' v'] cells IH]; simpl; intros H; [reflexivity|].
  destruct (String.eqb_spec c c') as [E | N].
  - exfalso. apply H. left. now symmetry.
  - f_equal. apply IH. tauto.
Qed.

Lemma lookup_assign_other (c c' : string) (v : nat) (cells : list (string * nat)) :
  c' <> c -> lookup String.eqb c' (assign c v cells) = lookup String.eqb c' cells.
Proof.
  intros N. induction cells as [|[k w] cells IH]; simpl.
  - apply String.eqb_neq in N. now rewrite N.
  - destruct (String.eqb_spec c k) as [E | Nk]; simpl.
    + subst k. apply String.eqb_neq in N. now rewrite N.
    + destruct (String.eqb c' k); [reflexivity | exact IH].
Qed.

Lemma pivot_row_columns (l : list Row) (row : Z * list (string * nat)) :
  In row (pivot_table l) -> map fst (snd row) = columns (pivot_table l).
Proof.
  rewrite pivot_columns. unfold pivot_table. rewrite in_map_iff.
  intros [y [<- _]]. simpl. rewrite map_map. simpl. apply map_id.
Qed.

(** X5.  The pivot is a rectangular table in ascending order: its years are
    strictly ascending, its tier columns strictly ascending by name, and
    every row has exactly the columns of the table.  Setting Total keeps
    the years and every other cell, and, unless a medal is itself named
    "Total", puts the new column last in every row. *)
Theorem medals_by_type_shape (df : list Row) :
  let p := medals_by_type df in
  StronglySorted Z.lt (map fst p) /\
  StronglySorted (fun a b => String.compare a b = Lt) (columns p) /\
  (forall row, In row p -> map fst (snd row) = columns p) /\
  map fst (medals_by_type_Total df) = map fst p /\
  (forall y c, c <> "Total" -> cell (medals_by_type_Total df) y c = cell p y c) /\
  (~ In "Total" (columns p) ->
   forall row, In row (medals_by_type_Total df) ->
     map fst (snd row) = columns p ++ ["Total"]).
Proof.
  intros p. unfold p, medals_by_type_Total, medals_by_type.
  set (l := fencing_unique_medals df).
  split; [|split; [|split; [|split; [|split]]]].
  - unfold pivot_table. rewrite map_map. simpl. rewrite map_id. apply year_keys_sorted.
  - rewrite pivot_columns. apply string_keys_sorted.
  - intros row. apply pivot_row_columns.
  - unfold add_Total. cbv zeta. rewrite map_map. reflexivity.
  - intros y c N. unfold cell, add_Total. cbv zeta.
    rewrite (lookup_map_snd Z.eqb
               (fun cells => assign "Total" (row_sum (medals_type_cols (pivot_table l)) cells)
                                    cells)).
    destruct (lookup Z.eqb y (pivot_table l)) as [cells|]; [|reflexivity].
    simpl. now apply lookup_assign_other.
  - intros Hfresh row Hrow. unfold add_Total in Hrow. cbv zeta in Hrow.
    apply in_map_iff in Hrow. destruct Hrow as [row0 [<- Hrow0]]. simpl.
    pose proof (pivot_row_columns l row0 Hrow0) as Hcols.
    rewrite assign_fresh by (rewrite Hcols; exact Hfresh).
    rewrite map_app, Hcols. reflexivity.
Qed.

Lemma medals_by_type_shape_witness :
  columns (medals_by_type e2e_df) = ["Gold"] /\
  forall row, In row (medals_by_type_Total e2e_df) ->
    map fst (snd row) = columns (medals_by_type e2e_df) ++ ["Total"].
Proof.
  split; [vm_compute; reflexivity|].
  apply (medals_by_type_shape e2e_df).
  vm_compute. intros [H | []]. discriminate H.
Defined.

(** ** The median *)

Lemma insertQ_perm (a : Q) (l : list Q) : Permutation (insertQ a l) (a :: l).
Proof.
  induction l as [|b l IH]; simpl; [reflexivity|].
  destruct (Qle_bool a b); [reflexivity|].
  rewrite IH. apply perm_swap.
Qed.

Lemma sortQ_perm (l : list Q) : Permutation (sortQ l) l.
Proof.
  induction l as [|a l IH]; simpl; [reflexivity|].
  rewrite insertQ_perm. now constructor.
Qed.

Lemma insertQ_sorted (a : Q) (l : list Q) :
  StronglySorted Qle l -> StronglySorted Qle (insertQ a l).
Proof.
  induction l as [|b l IH]; intros Hs; simpl.
  - repeat constructor.
  - apply StronglySorted_inv in Hs. destruct Hs as [Hs Hb].
    destruct (Qle_bool a b) eqn:E.
    + apply Qle_bool_iff in E. constructor; [now constructor|].
      constructor; [exact E|].
      eapply Forall_impl; [|exact Hb]. intros c Hc. now apply Qle_trans with b.
    + assert (Hba : (b <= a)%Q).
      { apply Qlt_le_weak, Qnot_le_lt. intros H. apply Qle_bool_iff in H. congruence. }
      constructor; [now apply IH|].
      rewrite Forall_forall in *. intros c Hc.
      apply (Permutation_in _ (insertQ_perm a l)) in Hc.
      destruct Hc as [<- | Hc]; [exact Hba | now apply Hb].
Qed.

Lemma sortQ_sorted (l : list Q) : StronglySorted Qle (sortQ l).
Proof.
  induction l as [|a l IH]; simpl; [constructor | now apply insertQ_sorted].
Qed.

Lemma dropna_In {A : Type} (col : list (option A)) (x : A) :
  In x (dropna col) <-> In (Some x) col.
Proof.
  induction col as [|[a|] col IH]; simpl.
  - tauto.
  - rewrite IH. split; intros [H | H]; auto; left; congruence.
  - rewrite IH. split; [auto | intros [H | H]; [discriminate | assumption]].
Qed.

Lemma sorted_firstn_le (xs : list Q) :
  StronglySorted Qle xs -> forall k, (k < List.length xs)%nat ->
  Forall (fun x => (x <= nth k xs 0)%Q) (firstn (S k) xs).
Proof.
  induction 1 as [|a xs Hs IH Ha]; intros k Hk; simpl in Hk; [lia|].
  destruct k as [|k].
  - simpl. constructor; [apply Qle_refl | constructor].
  - change (firstn (S (S k)) (a :: xs)) with (a :: firstn (S k) xs).
    change (nth (S k) (a :: xs) 0%Q) with (nth k xs 0%Q).
    constructor; [|apply IH; lia].
    rewrite Forall_forall in Ha. apply Ha. apply nth_In. lia.
Qed.

Lemma sorted_skipn_ge (xs : list Q) :
  StronglySorted Qle xs -> forall k, (k < List.length xs)%nat ->
  Forall (fun x => (nth k xs 0 <= x)%Q) (skipn k xs).
Proof.
  induction 1 as [|a xs Hs IH Ha]; intros k Hk; simpl in Hk; [lia|].
  destruct k as [|k].
  - simpl. constructor; [apply Qle_refl | exact Ha].
  - simpl. apply IH. lia.
Qed.

Lemma filter_all {A : Type} (f : A -> bool) (l : list A) :
  Forall (fun x => f x = true) l -> filter f l = l.
Proof.
  induction 1 as [|a l Ha Hl IH]; simpl; [reflexivity|]. now rewrite Ha, IH.
Qed.

Lemma count_firstn {A : Type} (f : A -> bool) (k : nat) (l : list A) :
  Forall (fun x => f x = true) (firstn k l) ->
  (List.length (firstn k l) <= List.length (filter f l))%nat.
Proof.
  intros H. rewrite <- (firstn_skipn k l) at 2.
  rewrite filter_app, length_app, (filter_all f _ H). lia.
Qed.

Lemma count_skipn {A : Type} (f : A -> bool) (k : nat) (l : list A) :
  Forall (fun x => f x = true) (skipn k l) ->
  (List.length (skipn k l) <= List.length (filter f l))%nat.
Proof.
  intros H. rewrite <- (firstn_skipn k l) at 2.
  rewrite filter_app, length_app, (filter_all f _ H). lia.
Qed.

Lemma half_between (a b : Q) : (a <= b)%Q -> (a <= (a + b) / 2 <= b)%Q.
Proof.
  intros H. unfold Qdiv. change (/ 2)%Q with (1 # 2)%Q. lra.
Qed.

Lemma median_None_iff (col : list (option Q)) :
  median col = None <-> (forall q, ~ In (Some q) col).
Proof.
  unfold median.
  assert (Hlen : List.length (sortQ (dropna col)) = List.length (dropna col))
    by apply Permutation_length, sortQ_perm.
  rewrite Hlen. split.
  - intros H q Hq. apply dropna_In in Hq.
    destruct (dropna col) as [|a l]; [exact Hq|].
    cbv zeta in H. cbn [List.length] in H.
    destruct (Nat.even (S (List.length l))); discriminate H.
  - intros H. destruct (dropna col) as [|a l] eqn:E; [reflexivity|].
    exfalso. apply (H a). apply dropna_In. rewrite E. now left.
Qed.

(** The sorted values and a middle position describe the median. *)
Lemma median_cases (col : list (option Q)) (m : Q) :
  median col = Some m ->
  let xs := sortQ (dropna col) in
  let n := List.length xs in
  (exists k, n = (2 * k + 1)%nat /\ m = nth k xs 0%Q) \/
  (exists k, n = (2 * k + 2)%nat /\ m = ((nth k xs 0 + nth (S k) xs 0) / 2)%Q).
Proof.
  intros H. cbv zeta. unfold median in H. cbv zeta in H.
  set (xs := sortQ (dropna col)) in *.
  remember (List.length xs) as n eqn:En.
  assert (Hpos : (0 < n)%nat) by (destruct n; [discriminate H | lia]).
  assert (H' : (if Nat.even n
                then Some ((nth (n / 2 - 1) xs 0 + nth (n / 2) xs 0) / 2)%Q
                else Some (nth (n / 2) xs 0%Q)) = Some m)
    by (destruct n; [lia | exact H]).
  clear H. rename H' into H.
  destruct (Nat.even n) eqn:Ev.
  - right. apply Nat.even_spec in Ev. destruct Ev as [k Hk].
    destruct k as [|k]; [lia|]. exists k. split; [lia|].
    assert (Hd : (n / 2 = S k)%nat).
    { rewrite Hk, Nat.mul_comm. apply Nat.div_mul. lia. }
    rewrite Hd in H. replace (S k - 1)%nat with k in H by lia. now inversion H.
  - left. assert (Ho : Nat.odd n = true) by (rewrite <- Nat.negb_even, Ev; reflexivity).
    apply Nat.odd_spec in Ho. destruct Ho as [k Hk]. exists k. split; [exact Hk|].
    assert (Hd : (n / 2 = k)%nat).
    { symmetry. apply (Nat.div_unique n 2 k 1); lia. }
    rewrite Hd in H. now inversion H.
Qed.

Lemma median_middle (col : list (option Q)) (m : Q) :
  median col = Some m ->
  (List.length (dropna col)
   <= 2 * List.length (filter (fun x => Qle_bool x m) (dropna col)))%nat /\
  (List.length (dropna col)
   <= 2 * List.length (filter (fun x => Qle_bool m x) (dropna col)))%nat /\
  exists a b, In (Some a) col /\ In (Some b) col /\ (a <= m <= b)%Q.
Proof.
  intros Hm.
  pose proof (sortQ_perm (dropna col)) as Hp.
  pose proof (sortQ_sorted (dropna col)) as Hs.
  rewrite <- (Permutation_length Hp).
  rewrite <- (filter_length_perm (fun x => Qle_bool x m) _ _ Hp).
  rewrite <- (filter_length_perm (fun x => Qle_bool m x) _ _ Hp).
  assert (Hcol : forall x, In x (sortQ (dropna col)) -> In (Some x) col).
  { intros x Hx. apply dropna_In. now apply (Permutation_in _ Hp). }
  apply median_cases in Hm. cbv zeta in Hm.
  set (xs := sortQ (dropna col)) in *.
  destruct Hm as [[k [Hn ->]] | [k [Hn ->]]].
  - pose proof (sorted_firstn_le xs Hs k ltac:(lia)) as Hlo.
    pose proof (sorted_skipn_ge xs Hs k ltac:(lia)) as Hhi.
    split; [|split].
    + assert (H : (List.length (firstn (S k) xs)
                   <= List.length (filter (fun x => Qle_bool x (nth k xs 0%Q)) xs))%nat).
      { apply count_firstn. eapply Forall_impl; [|exact Hlo].
        intros x Hx. now apply Qle_bool_iff. }
      rewrite length_firstn in H. lia.
    + assert (H : (List.length (skipn k xs)
                   <= List.length (filter (fun x => Qle_bool (nth k xs 0%Q) x) xs))%nat).
      { apply count_skipn. eapply Forall_impl; [|exact Hhi].
        intros x Hx. now apply Qle_bool_iff. }
      rewrite length_skipn in H. lia.
    + exists (nth k xs 0%Q), (nth k xs 0%Q).
      assert (Hin : In (nth k xs 0%Q) xs) by (apply nth_In; lia).
      repeat split; try (now apply Hcol); apply Qle_refl.
  - pose proof (sorted_firstn_le xs Hs k ltac:(lia)) as Hlo.
    pose proof (sorted_skipn_ge xs Hs (S k) ltac:(lia)) as Hhi.
    assert (Hab : (nth k xs 0 <= nth (S k) xs 0)%Q).
    { pose proof (sorted_firstn_le xs Hs (S k) ltac:(lia)) as H.
      rewrite Forall_forall in H. apply H.
      rewrite <- (firstn_skipn (S k) (firstn (S (S k)) xs)).
      apply in_or_app. left. rewrite firstn_firstn.
      replace (Nat.min (S k) (S (S k))) with (S k) by lia.
      assert (Hk : (k < List.length (firstn (S k) xs))%nat)
        by (rewrite length_firstn; lia).
      pose proof (nth_In (firstn (S k) xs) 0%Q Hk) as Hin.
      rewrite nth_firstn in Hin.
      destruct (k <? S k)%nat eqn:E; [exact Hin | apply Nat.ltb_ge in E; lia]. }
    destruct (half_between _ _ Hab) as [Hm1 Hm2].
    split; [|split].
    + assert (H : (List.length (firstn (S k) xs)
                   <= List.length
                        (filter (fun x => Qle_bool x ((nth k xs 0%Q + nth (S k) xs 0%Q) / 2)%Q) xs))%nat).
      { apply count_firstn. eapply Forall_impl; [|exact Hlo].
        intros x Hx. apply Qle_bool_iff. now apply Qle_trans with (nth k xs 0%Q). }
      rewrite length_firstn in H. lia.
    + assert (H : (List.length (skipn (S k) xs)
                   <= List.length
                        (filter (fun x => Qle_bool ((nth k xs 0%Q + nth (S k) xs 0%Q) / 2)%Q x) xs))%nat).
      { apply count_skipn. eapply Forall_impl; [|exact Hhi].
        intros x Hx. apply Qle_bool_iff. now apply Qle_trans with (nth (S k) xs 0%Q). }
      rewrite length_skipn in H. lia.
    + exists (nth k xs 0%Q), (nth (S k) xs 0%Q).
      repeat split; try assumption; apply Hcol, nth_In; lia.
Qed.

(** X6.  [median] of a column without any value is NaN; otherwise it is a
    median of the values present: at least half of them are at most the
    median, at least half of them are at least the median, and it lies
    between two of them. *)
Theorem median_is_a_median (col : list (option Q)) :
  (median col = None <-> (forall q, ~ In (Some q) col)) /\
  (forall m, median col = Some m ->
     (List.length (dropna col)
      <= 2 * List.length (filter (fun x => Qle_bool x m) (dropna col)))%nat /\
     (List.length (dropna col)
      <= 2 * List.length (filter (fun x => Qle_bool m x) (dropna col)))%nat /\
     exists a b, In (Some a) col /\ In (Some b) col /\ (a <= m <= b)%Q).
Proof.
  split; [apply median_None_iff | apply median_middle].
Qed.

Lemma median_is_a_median_witness :
  median (map raw_Age e2e_raw) = Some (49 # 2) /\
  exists a b, In (Some a) (map raw_Age e2e_raw) /\ In (Some b) (map raw_Age e2e_raw) /\
              (a <= 49 # 2 <= b)%Q.
Proof.
  split; [vm_compute; reflexivity|].
  apply (median_is_a_median (map raw_Age e2e_raw)).
  vm_compute. reflexivity.
Defined.

(** ** When the preprocessing block raises *)











(** ** What the preprocessing block leaves alone *)

Lemma imputed_between (col : list (option Q)) (z : Z) :
  In None col ->
  astype_uint8 (is_int64 col) (fillna (median col) None) = Some z ->
  (forall q, In (Some q) col -> (q < 256)%Q) ->
  exists a b, In (Some a) col /\ In (Some b) col /\ Qfloor a <= z <= Qfloor b.
Proof.
  intros Hn H Hlt. destruct (imputed_cell col z Hn H) as [m [Em [H0 Hz]]].
  destruct (median_middle col m Em) as [_ [_ [a [b [Ha [Hb [Ham Hmb]]]]]]].
  exists a, b. split; [assumption|]. split; [assumption|].
  rewrite Hz by (apply Qle_lt_trans with b; [assumption | now apply Hlt]).
  split; now apply Qfloor_resp_le.
Qed.

(** X8.  An imputed value never leaves the range of the recorded ones: when
    every recorded value of the column is at least 0 and below 256, the
    value stored for a missing Age, Height or Weight lies between the
    integer parts of two recorded values of that column. *)
Theorem imputed_value_between_recorded (raw : list RawRecord) (df : list Row)
        (i : nat) (r : RawRecord) (c : Row) :
  clean raw = Some df -> nth_error raw i = Some r -> nth_error df i = Some c ->
  (raw_Age r = None ->
   (forall q, In (Some q) (map raw_Age raw) -> (0 <= q < 256)%Q) ->
   exists a b, In (Some a) (map raw_Age raw) /\ In (Some b) (map raw_Age raw) /\
               Qfloor a <= Age c <= Qfloor b) /\
  (raw_Height r = None ->
   (forall q, In (Some q) (map raw_Height raw) -> (0 <= q < 256)%Q) ->
   exists a b, In (Some a) (map raw_Height raw) /\ In (Some b) (map raw_Height raw) /\
               Qfloor a <= Height c <= Qfloor b) /\
  (raw_Weight r = None ->
   (forall q, In (Some q) (map raw_Weight raw) -> (0 <= q < 256)%Q) ->
   exists a b, In (Some a) (map raw_Weight raw) /\ In (Some b) (map raw_Weight raw) /\
               Qfloor a <= Weight c <= Qfloor b).
Proof.
  intros Hc Hi Hd. destruct (clean_nth raw df i r Hc Hi) as [c' [Hd' [_ Hrow]]].
  assert (c' = c) by congruence. subst c'.
  apply astype_row_inv in Hrow. destruct Hrow as [Ha [Hh [Hw _]]].
  cbn [raw_Age raw_Height raw_Weight fillna_row] in Ha, Hh, Hw.
  pose proof (nth_error_In _ _ Hi) as Hr.
  repeat split.
  - intros Hn Hlt. rewrite Hn in Ha.
    apply imputed_between;
      [rewrite <- Hn; now apply in_map | assumption | intros q Hq; now apply Hlt].
  - intros Hn Hlt. rewrite Hn in Hh.
    apply imputed_between;
      [rewrite <- Hn; now apply in_map | assumption | intros q Hq; now apply Hlt].
  - intros Hn Hlt. rewrite Hn in Hw.
    apply imputed_between;
      [rewrite <- Hn; now apply in_map | assumption | intros q Hq; now apply Hlt].
Qed.

Lemma imputed_value_between_recorded_witness :
  match nth_error e2e_df 2 with
  | Some c =>
      exists a b, In (Some a) (map raw_Age e2e_raw) /\ In (Some b) (map raw_Age e2e_raw) /\
                  Qfloor a <= Age c <= Qfloor b
  | None => False
  end.
Proof.
  assert (Hc : clean e2e_raw = Some e2e_df) by (vm_compute; reflexivity).
  destruct (nth_error e2e_df 2) as [c|] eqn:Hd; [|discriminate Hd].
  destruct (imputed_value_between_recorded e2e_raw e2e_df 2 _ c Hc eq_refl Hd) as [H _].
  apply H.
  - reflexivity.
  - intros q [E | [E | [E | []]]]; inversion E; subst; (split; [discriminate | reflexivity]).
Defined.

(** X9.  The preprocessing block keeps what was recorded: for every row,
    Sex, NOC, Games, Season, Sport and Event are copied; ID is kept when it
    fits 32 unsigned bits and Year when it fits 16 signed bits; and a
    recorded whole Age, Height or Weight between 0 and 255 is kept. *)
Theorem clean_keeps_recorded_values (raw : list RawRecord) (df : list Row)
        (i : nat) (r : RawRecord) (c : Row) :
  clean raw = Some df -> nth_error raw i = Some r -> nth_error df i = Some c ->
  (Sex c = raw_Sex r /\ NOC c = raw_NOC r /\ Games c = raw_Games r /\
   Season c = raw_Season r /\ Sport c = raw_Sport r /\ Event c = raw_Event r) /\
  (0 <= raw_ID r < 2 ^ 32 -> ID c = raw_ID r) /\
  (- 2 ^ 15 <= raw_Year r < 2 ^ 15 -> Year c = raw_Year r) /\
  (forall a, raw_Age r = Some (inject_Z a) -> 0 <= a <= 255 -> Age c = a) /\
  (forall h, raw_Height r = Some (inject_Z h) -> 0 <= h <= 255 -> Height c = h) /\
  (forall w, raw_Weight r = Some (inject_Z w) -> 0 <= w <= 255 -> Weight c = w).
Proof.
  intros Hc Hi Hd. destruct (clean_nth raw df i r Hc Hi) as [c' [Hd' [_ Hrow]]].
  assert (c' = c) by congruence. subst c'.
  apply astype_row_inv in Hrow. destruct Hrow as [Ha [Hh [Hw E]]].
  cbn [raw_Age raw_Height raw_Weight raw_ID raw_Sex raw_NOC raw_Games raw_Year
       raw_Season raw_Sport raw_Event raw_Name raw_Medal fillna_row] in Ha, Hh, Hw, E.
  assert (Hkeep : forall b cell med z a,
             astype_uint8 b (fillna med cell) = Some z ->
             cell = Some (inject_Z a) -> 0 <= a <= 255 -> z = a).
  { intros b cell med z a H -> Hle. cbn [fillna] in H.
    rewrite astype_uint8_id in H by assumption. now inversion H. }
  split; [|split; [|split; [|split; [|split]]]].
  - rewrite E. simpl. repeat split.
  - intros H. rewrite E. simpl. now apply astype_uint32_id.
  - intros H. rewrite E. simpl. now apply astype_int16_id.
  - intros a Hr Hle. exact (Hkeep _ _ _ _ _ Ha Hr Hle).
  - intros h Hr Hle. exact (Hkeep _ _ _ _ _ Hh Hr Hle).
  - intros w Hr Hle. exact (Hkeep _ _ _ _ _ Hw Hr Hle).
Qed.

Lemma clean_keeps_recorded_values_witness :
  match nth_error e2e_df 1 with
  | Some c => Age c = 25 /\ Year c = 2004 /\ ID c = 2
  | None => False
  end.
Proof.
  assert (Hc : clean e2e_raw = Some e2e_df) by (vm_compute; reflexivity).
  destruct (nth_error e2e_df 1) as [c|] eqn:Hd; [|discriminate Hd].
  destruct (clean_keeps_recorded_values e2e_raw e2e_df 1 _ c Hc eq_refl Hd)
    as [_ [Hid [Hy [Ha _]]]].
  split; [|split].
  - apply Ha; [reflexivity | lia].
  - apply Hy. simpl. lia.
  - apply Hid. simpl. lia.
Defined.

(** ** The form of an anonymised Name *)

Lemma string_length_app (a b : string) :
  String.length (a ++ b) = (String.length a + String.length b)%nat.
Proof.
  induction a as [|c a IH]; simpl; [reflexivity | now rewrite IH].
Qed.

Lemma all_hex_app (a b : string) : all_hex (a ++ b) = all_hex a && all_hex b.
Proof.
  induction a as [|c a IH]; simpl; [reflexivity|]. now rewrite IH, andb_assoc.
Qed.

Lemma hex_digit_is_hex (d : N) : (d < 16)%N -> is_hex (SHA256.hex_digit d) = true.
Proof.
  intros H. rewrite <- (N2Nat.id d).
  assert (Hk : (N.to_nat d < 16)%nat) by lia.
  generalize dependent (N.to_nat d). clear. intros k Hk.
  do 16 (destruct k as [|k]; [vm_compute; reflexivity|]). lia.
Qed.

Lemma hex_of_word_form (n : nat) (x : N) :
  String.length (SHA256.hex_of_word n x) = n /\ all_hex (SHA256.hex_of_word n x) = true.
Proof.
  induction n as [|n [IH1 IH2]]; [split; reflexivity|].
  cbn [SHA256.hex_of_word String.length all_hex]. split; [now rewrite IH1|].
  rewrite IH2, andb_true_r. apply hex_digit_is_hex.
  apply N.mod_lt. discriminate.
Qed.

Lemma compress_length (h block : list N) :
  List.length h = 8%nat -> List.length (SHA256.compress h block) = 8%nat.
Proof.
  intros H. unfold SHA256.compress. cbv zeta.
  rewrite length_map, length_combine, H. reflexivity.
Qed.

Lemma digest_words_length (msg : list N) :
  List.length (SHA256.digest_words msg) = 8%nat.
Proof.
  unfold SHA256.digest_words. cbv zeta.
  generalize (SHA256.blocks_of_words
                (List.length (SHA256.words_of_bytes (List.length (SHA256.pad msg))
                                                    (SHA256.pad msg)))
                (SHA256.words_of_bytes (List.length (SHA256.pad msg)) (SHA256.pad msg))).
  intros blocks.
  assert (H : List.length SHA256.H0 = 8%nat) by reflexivity.
  revert H. generalize SHA256.H0.
  induction blocks as [|b blocks IH]; intros h H; simpl; [exact H|].
  apply IH. now apply compress_length.
Qed.

Lemma hexdigest_form (s : string) :
  String.length (SHA256.hexdigest s) = 64%nat /\ all_hex (SHA256.hexdigest s) = true.
Proof.
  unfold SHA256.hexdigest.
  pose proof (digest_words_length (SHA256.bytes_of_string s)) as H.
  generalize dependent (SHA256.digest_words (SHA256.bytes_of_string s)).
  intros ws H.
  assert (G : forall ws : list N,
             String.length (fold_right (fun w acc => (SHA256.hex_of_word 8 w ++ acc)%string)
                                       EmptyString ws) = (8 * List.length ws)%nat /\
             all_hex (fold_right (fun w acc => (SHA256.hex_of_word 8 w ++ acc)%string)
                                 EmptyString ws) = true).
  { clear. induction ws as [|w ws [IH1 IH2]]; [split; reflexivity|].
    cbn [fold_right List.length].
    destruct (hex_of_word_form 8 w) as [H1 H2].
    rewrite string_length_app, all_hex_app, H1, H2, IH1, IH2. split; [lia | reflexivity]. }
  destruct (G ws) as [G1 G2]. rewrite G1, H. split; [reflexivity | exact G2].
Qed.

(** X10.  Whatever the input Name, a missing one included, the cleaned Name
    is a string of exactly 64 characters, each of them one of 0-9 and a-f. *)
Theorem clean_Name_is_64_hex (raw : list RawRecord) (df : list Row) (c : Row) :
  clean raw = Some df -> In c df ->
  String.length (Name c) = 64%nat /\ all_hex (Name c) = true.
Proof.
  intros Hc Hin. destruct (clean_In raw df c Hc Hin) as [r [_ Hr]].
  apply astype_row_inv in Hr. destruct Hr as [_ [_ [_ E]]].
  rewrite E. cbn [Name]. unfold anonymise. apply hexdigest_form.
Qed.

Lemma clean_Name_is_64_hex_witness :
  Forall (fun c => String.length (Name c) = 64%nat /\ all_hex (Name c) = true) e2e_df.
Proof.
  apply Forall_forall. intros c Hin.
  apply (clean_Name_is_64_hex e2e_raw e2e_df c); [vm_compute; reflexivity | exact Hin].
Defined.

(** ** How drop_duplicates composes *)

Section DropDuplicatesCompose.
Context {K : Type} (eqb : K -> K -> bool) (key : Row -> K).
Hypothesis eqb_eq : forall a b, eqb a b = true <-> a = b.

Lemma existsb_seen_ext (k : K) (s1 s2 : list K) :
  (forall x, In x s1 <-> In x s2) -> existsb (eqb k) s1 = existsb (eqb k) s2.
Proof.
  intros H. apply eq_true_iff_eq.
  rewrite !(existsb_seen eqb eqb_eq). apply H.
Qed.

Lemma drop_seen_ext (l : list Row) : forall s1 s2,
  (forall x, In x s1 <-> In x s2) -> drop_seen eqb key s1 l = drop_seen eqb key s2 l.
Proof.
  induction l as [|r l IH]; intros s1 s2 H; simpl; [reflexivity|].
  rewrite (existsb_seen_ext (key r) s1 s2 H).
  destruct (existsb (eqb (key r)) s2); [now apply IH|].
  f_equal. apply IH. intros x. simpl. rewrite H. tauto.
Qed.

Lemma drop_seen_fixed (l : list Row) : forall seen,
  NoDup (map key l) -> (forall r, In r l -> ~ In (key r) seen) ->
  drop_seen eqb key seen l = l.
Proof.
  induction l as [|r l IH]; intros seen Hnd Hout; simpl; [reflexivity|].
  inversion Hnd as [|? ? Hr Hl]; subst.
  destruct (existsb (eqb (key r)) seen) eqn:E.
  - apply (existsb_seen eqb eqb_eq) in E. exfalso. apply (Hout r); [now left | exact E].
  - f_equal. apply IH; [assumption|].
    intros r' Hr' [Ek | Hin].
    + apply Hr. rewrite Ek. now apply in_map.
    + apply (Hout r'); [now right | exact Hin].
Qed.

Lemma drop_duplicates_idempotent (l : list Row) :
  drop_duplicates eqb key (drop_duplicates eqb key l) = drop_duplicates eqb key l.
Proof.
  unfold drop_duplicates. apply drop_seen_fixed.
  - apply (drop_seen_NoDup eqb key eqb_eq).
  - intros r _ [].
Qed.

Lemma drop_seen_filter (S : list K) (l : list Row) : forall seen,
  drop_seen eqb key (S ++ seen) l
  = filter (fun r => negb (existsb (eqb (key r)) S)) (drop_seen eqb key seen l).
Proof.
  induction l as [|r l IH]; intros seen; simpl; [reflexivity|].
  rewrite existsb_app.
  destruct (existsb (eqb (key r)) seen) eqn:Es.
  - rewrite orb_true_r. apply IH.
  - rewrite orb_false_r. simpl.
    destruct (existsb (eqb (key r)) S) eqn:ES; simpl.
    + rewrite <- IH. apply drop_seen_ext. intros x.
      rewrite !in_app_iff. simpl. apply (existsb_seen eqb eqb_eq) in ES.
      split; [tauto|]. intros [H | [<- | H]]; tauto.
    + f_equal. rewrite <- IH. apply drop_seen_ext. intros x.
      simpl. rewrite !in_app_iff. simpl. tauto.
Qed.

Lemma drop_seen_app (l1 l2 : list Row) : forall seen,
  drop_seen eqb key seen (l1 ++ l2)
  = drop_seen eqb key seen l1 ++ drop_seen eqb key (map key l1 ++ seen) l2.
Proof.
  induction l1 as [|r l1 IH]; intros seen; simpl; [reflexivity|].
  destruct (existsb (eqb (key r)) seen) eqn:E.
  - rewrite IH. f_equal. apply drop_seen_ext. intros x.
    simpl. rewrite !in_app_iff. apply (existsb_seen eqb eqb_eq) in E.
    split; [tauto|]. intros [<- | H]; tauto.
  - simpl. f_equal. rewrite IH. f_equal. apply drop_seen_ext. intros x.
    simpl. rewrite !in_app_iff. simpl. tauto.
Qed.

Lemma drop_duplicates_app (l1 l2 : list Row) :
  drop_duplicates eqb key (l1 ++ l2)
  = drop_duplicates eqb key l1
    ++ filter (fun r => negb (existsb (eqb (key r)) (map key l1)))
              (drop_duplicates eqb key l2).
Proof.
  unfold drop_duplicates. rewrite drop_seen_app. f_equal. apply drop_seen_filter.
Qed.

(** Deduplicating before or after a filter: the filter first keeps at least
    as many rows. *)
Lemma filter_drop_seen_le (P : Row -> bool) (l : list Row) : forall s1 s2,
  (forall k, In k s2 -> In k s1) ->
  (List.length (filter P (drop_seen eqb key s1 l))
   <= List.length (drop_seen eqb key s2 (filter P l)))%nat.
Proof.
  induction l as [|r l IH]; intros s1 s2 Hsub; simpl; [lia|].
  destruct (P r) eqn:EP; simpl.
  - destruct (existsb (eqb (key r)) s2) eqn:E2.
    + apply (existsb_seen eqb eqb_eq) in E2. apply Hsub in E2.
      apply (existsb_seen eqb eqb_eq) in E2. rewrite E2. now apply IH.
    + destruct (existsb (eqb (key r)) s1) eqn:E1; simpl.
      * etransitivity; [apply (IH s1 (key r :: s2))|lia].
        intros k [<- | Hk]; [now apply (existsb_seen eqb eqb_eq) | now apply Hsub].
      * rewrite EP. simpl. apply le_n_S. apply IH.
        intros k [<- | Hk]; [now left | right; now apply Hsub].
  - destruct (existsb (eqb (key r)) s1) eqn:E1; simpl.
    + now apply IH.
    + rewrite EP. apply IH. intros k Hk. right. now apply Hsub.
Qed.

Lemma filter_drop_seen_eq (P : Row -> bool) (l : list Row) : forall s1 s2,
  (forall r r', In r l -> In r' l -> key r = key r' -> P r = P r') ->
  (forall k, In k s2 -> In k s1) ->
  (forall k, In k s1 -> In k s2 \/ forall r, In r l -> key r = k -> P r = false) ->
  filter P (drop_seen eqb key s1 l) = drop_seen eqb key s2 (filter P l).
Proof.
  induction l as [|r l IH]; intros s1 s2 Hdet Hsub Hinv; simpl; [reflexivity|].
  assert (Hdet' : forall a b, In a l -> In b l -> key a = key b -> P a = P b).
  { intros a b Ha Hb. apply Hdet; now right. }
  destruct (P r) eqn:EP; simpl.
  - destruct (existsb (eqb (key r)) s2) eqn:E2.
    + apply (existsb_seen eqb eqb_eq) in E2. pose proof (Hsub _ E2) as E1.
      apply (existsb_seen eqb eqb_eq) in E1. rewrite E1.
      apply IH; [assumption | assumption |].
      intros k Hk. destruct (Hinv k Hk) as [H | H]; [now left | right].
      intros a Ha. apply H. now right.
    + assert (E1 : existsb (eqb (key r)) s1 = false).
      { destruct (existsb (eqb (key r)) s1) eqn:E1; [|reflexivity].
        apply (existsb_seen eqb eqb_eq) in E1. destruct (Hinv _ E1) as [H | H].
        - apply (existsb_seen eqb eqb_eq) in H. congruence.
        - rewrite (H r (or_introl eq_refl) eq_refl) in EP. discriminate. }
      rewrite E1. simpl. rewrite EP. f_equal. apply IH; [assumption | |].
      * intros k [<- | Hk]; [now left | right; now apply Hsub].
      * intros k [<- | Hk]; [left; now left|].
        destruct (Hinv k Hk) as [H | H]; [left; now right | right].
        intros a Ha. apply H. now right.
  - destruct (existsb (eqb (key r)) s1) eqn:E1; simpl.
    + apply IH; [assumption | assumption |].
      intros k Hk. destruct (Hinv k Hk) as [H | H]; [now left | right].
      intros a Ha. apply H. now right.
    + rewrite EP. apply IH; [assumption | |].
      * intros k Hk. right. now apply Hsub.
      * intros k [<- | Hk].
        -- right. intros a Ha Ek. rewrite <- EP. symmetry.
           apply Hdet; [now left | now right | now symmetry].
        -- destruct (Hinv k Hk) as [H | H]; [now left | right].
           intros a Ha. apply H. now right.
Qed.
End DropDuplicatesCompose.

Lemma filter_comm {A : Type} (f g : A -> bool) (l : list A) :
  filter f (filter g l) = filter g (filter f l).
Proof.
  induction l as [|a l IH]; simpl; [reflexivity|].
  destruct (f a) eqn:Ef, (g a) eqn:Eg; simpl; rewrite ?Ef, ?Eg, IH; reflexivity.
Qed.

Lemma dedupMedals_keeps_medals (l : list Row) :
  filter (fun r => negb (String.eqb (Medal r) "None")) (dedupMedals l) = dedupMedals l.
Proof.
  apply filter_all, Forall_forall. intros r Hr.
  apply (drop_seen_In eqb_GEM key_GEM eqb_GEM_eq) in Hr. destruct Hr as [Hr _].
  now apply filter_In in Hr.
Qed.

(** X11.  Deduplicating twice changes nothing more, and rows added at the
    end never change the rows already kept: the result for a longer frame
    is the result for its beginning, followed by the rows kept from the
    rest whose key does not occur in the beginning. *)
Theorem dedup_is_stable_under_appending :
  (forall l, dedupParticipants (dedupParticipants l) = dedupParticipants l) /\
  (forall l, dedupMedals (dedupMedals l) = dedupMedals l) /\
  (forall l1 l2,
     dedupParticipants (l1 ++ l2)
     = dedupParticipants l1
       ++ filter (fun r => negb (existsb (eqb_GI (key_GI r)) (map key_GI l1)))
                 (dedupParticipants l2)) /\
  (forall l1 l2,
     dedupMedals (l1 ++ l2)
     = dedupMedals l1
       ++ filter (fun r => negb (existsb (eqb_GEM (key_GEM r)) (map key_GEM l1)))
                 (dedupMedals l2)).
Proof.
  split; [|split; [|split]].
  - intros l. apply (drop_duplicates_idempotent eqb_GI key_GI eqb_GI_eq).
  - intros l. unfold dedupMedals at 1. rewrite dedupMedals_keeps_medals.
    apply (drop_duplicates_idempotent eqb_GEM key_GEM eqb_GEM_eq).
  - intros l1 l2. apply (drop_duplicates_app eqb_GI key_GI eqb_GI_eq).
  - intros l1 l2. unfold dedupMedals. rewrite filter_app.
    rewrite (drop_duplicates_app eqb_GEM key_GEM eqb_GEM_eq). f_equal.
    apply filter_ext_in. intros r Hr.
    apply (drop_seen_In eqb_GEM key_GEM eqb_GEM_eq) in Hr. destruct Hr as [Hr _].
    apply medal_filter_In in Hr. destruct Hr as [_ Hm].
    f_equal. apply eq_true_iff_eq.
    rewrite !(existsb_seen eqb_GEM eqb_GEM_eq), !in_map_iff.
    split; intros [r1 [Ek H1]]; exists r1; (split; [exact Ek|]).
    + now apply medal_filter_In in H1.
    + apply medal_filter_In. split; [assumption|].
      unfold key_GEM in Ek. inversion Ek as [[Eg Ee Em]]. now rewrite Em.
Qed.

Lemma total_groupCount (by_ : Row -> string) (l : list Row) :
  total (groupCount by_ l) = List.length l.
Proof.
  unfold groupCount. rewrite (total_perm _ _ (sort_values_desc_perm _)).
  apply groupby_count_total.
Qed.

Lemma groupCount_entry (by_ : Row -> string) (l : list Row) (k : string) (c : nat) :
  In (k, c) (groupCount by_ l) ->
  c = List.length (filter (fun r => String.eqb (by_ r) k) l).
Proof.
  intros Hin. unfold groupCount in Hin.
  apply (Permutation_in _ (sort_values_desc_perm _)) in Hin.
  now apply groupby_count_In in Hin.
Qed.

(** X12.  The Fencing entry of the ranking of sports never exceeds the
    number of medals in the ranking of fencing events: the first
    deduplicates before it looks at the sport, the second after, so a
    fencing row that shares Games, Event and Medal with an earlier row of
    another sport counts in the second only.  When rows that share Games,
    Event and Medal always share the sport, the two numbers are equal. *)
Theorem fencing_entry_at_most_event_total (df : list Row) :
  (List.length (filter is_Fencing (ita_medals_unique df))
   <= List.length (fencing_unique_medals df))%nat /\
  (forall c, In ("Fencing", c) (medals_by_sport df) ->
     (c <= total (medals_by_event df))%nat) /\
  ((forall r r', In r (ita df) -> In r' (ita df) ->
      key_GEM r = key_GEM r' -> Sport r = Sport r') ->
   filter is_Fencing (ita_medals_unique df) = fencing_unique_medals df /\
   forall c, In ("Fencing", c) (medals_by_sport df) -> c = total (medals_by_event df)).
Proof.
  assert (Hc : forall c, In ("Fencing", c) (medals_by_sport df) ->
                         c = List.length (filter is_Fencing (ita_medals_unique df))).
  { intros c Hin. apply groupCount_entry in Hin. exact Hin. }
  assert (Ht : total (medals_by_event df) = List.length (fencing_unique_medals df))
    by apply total_groupCount.
  assert (Ef : fencing_unique_medals df
               = drop_duplicates eqb_GEM key_GEM
                   (filter is_Fencing
                           (filter (fun r => negb (String.eqb (Medal r) "None")) (ita df)))).
  { unfold fencing_unique_medals, dedupMedals, fencing. now rewrite filter_comm. }
  assert (Hle : (List.length (filter is_Fencing (ita_medals_unique df))
                 <= List.length (fencing_unique_medals df))%nat).
  { rewrite Ef. unfold ita_medals_unique, dedupMedals, drop_duplicates.
    apply (filter_drop_seen_le eqb_GEM key_GEM eqb_GEM_eq). auto. }
  split; [exact Hle|]. split.
  - intros c Hin. rewrite (Hc c Hin), Ht. exact Hle.
  - intros Hdet.
    assert (Heq : filter is_Fencing (ita_medals_unique df) = fencing_unique_medals df).
    { rewrite Ef. unfold ita_medals_unique, dedupMedals, drop_duplicates.
      apply (filter_drop_seen_eq eqb_GEM key_GEM eqb_GEM_eq).
      - intros r r' Hr Hr' Ek. apply filter_In in Hr, Hr'.
        unfold is_Fencing. now rewrite (Hdet r r' (proj1 Hr) (proj1 Hr') Ek).
      - auto.
      - intros k []. }
    split; [exact Heq|].
    intros c Hin. now rewrite (Hc c Hin), Ht, Heq.
Qed.

Lemma fencing_entry_at_most_event_total_witness :
  medals_by_sport shadow_df = [("Rowing", 1%nat)] /\
  medals_by_event shadow_df = [("Team", 1%nat)] /\
  (List.length (filter is_Fencing (ita_medals_unique shadow_df))
   <= List.length (fencing_unique_medals shadow_df))%nat /\
  filter is_Fencing (ita_medals_unique e2e_df) = fencing_unique_medals e2e_df.
Proof.
  split; [vm_compute; reflexivity|]. split; [vm_compute; reflexivity|]. split.
  - exact (proj1 (fencing_entry_at_most_event_total shadow_df)).
  - refine (proj1 (proj2 (proj2 (fencing_entry_at_most_event_total e2e_df)) _)).
    intros r r' Hr Hr' _.
    repeat (destruct Hr as [<- | Hr]; [|]); try destruct Hr;
      repeat (destruct Hr' as [<- | Hr']; [|]); try destruct Hr'; reflexivity.
Defined.

Lemma dedup_is_stable_under_appending_witness :
  dedupParticipants (multi_df ++ e2e_df) = firstn 1 multi_df ++ e2e_df.
Proof.
  destruct dedup_is_stable_under_appending as [_ [_ [H _]]].
  rewrite H. vm_compute. reflexivity.
Defined.

(** ** The table of mean ages *)

Lemma existsb_filter {A : Type} (f : A -> bool) (l : list A) :
  existsb f l = match filter f l with [] => false | _ :: _ => true end.
Proof.
  induction l as [|a l IH]; simpl; [reflexivity|].
  destruct (f a); simpl; [reflexivity | exact IH].
Qed.

Lemma string_keys_same (l l' : list string) :
  (forall x, In x l <-> In x l') ->
  sorted_keys String.compare l = sorted_keys String.compare l'.
Proof.
  apply sorted_keys_same_elements;
    [apply string_cmp_eq | apply string_cmp_antisym | apply string_cmp_trans].
Qed.

Lemma In_map_const {A : Type} (c x : string) (l : list A) :
  In x (map (fun _ => c) l) <-> x = c /\ l <> [].
Proof.
  rewrite in_map_iff. split.
  - intros [a [E Ha]]. split; [now symmetry|]. intros ->. destruct Ha.
  - intros [-> Hl]. destruct l as [|a l]; [congruence|]. exists a. split; [reflexivity | now left].
Qed.

(** X13.  [mean_age] has an entry for a group only when Italy has a row in
    it, "Fencing" before "Other sports": a group without rows is left out
    rather than shown with an undefined mean, and without Italian rows the
    table is empty. *)
Theorem mean_age_lists_only_groups_with_rows (df : list Row) :
  map fst (mean_age df)
  = (if existsb is_Fencing (ita df) then ["Fencing"] else [])
    ++ (if existsb (fun r => negb (is_Fencing r)) (ita df) then ["Other sports"] else []) /\
  (ita df = [] -> mean_age df = []).
Proof.
  split.
  - unfold mean_age, groupby_mean_round1. rewrite map_map. simpl. rewrite map_id.
    unfold age_compare. rewrite map_app, !map_map. simpl.
    rewrite !existsb_filter.
    set (A := filter is_Fencing (ita df)).
    set (B := filter (fun r => negb (is_Fencing r)) (ita df)).
    assert (H : forall x, In x (map (fun _ : Row => "Fencing") A
                                ++ map (fun _ : Row => "Other sports") B)
                          <-> (x = "Fencing" /\ A <> []) \/ (x = "Other sports" /\ B <> [])).
    { intros x. now rewrite in_app_iff, !In_map_const. }
    destruct A as [|a A], B as [|b B].
    + reflexivity.
    + rewrite (string_keys_same _ ["Other sports"]); [reflexivity|].
      intros x. rewrite H. simpl. split.
      * intros [[_ F] | [-> _]]; [congruence | now left].
      * intros [<- | []]. right. split; [reflexivity | discriminate].
    + rewrite (string_keys_same _ ["Fencing"]); [reflexivity|].
      intros x. rewrite H. simpl. split.
      * intros [[-> _] | [_ F]]; [now left | congruence].
      * intros [<- | []]. left. split; [reflexivity | discriminate].
    + rewrite (string_keys_same _ ["Fencing"; "Other sports"]); [reflexivity|].
      intros x. rewrite H. simpl. split.
      * intros [[-> _] | [-> _]]; auto.
      * intros [<- | [<- | []]]; [left | right]; (split; [reflexivity | discriminate]).
  - intros E. unfold mean_age, age_compare. rewrite E. reflexivity.
Qed.

Lemma mean_age_lists_only_groups_with_rows_witness :
  map fst (mean_age mean_df) = ["Fencing"] /\
  mean_age (filter (fun r => negb (String.eqb (NOC r) "ITA")) med_df) = [].
Proof.
  split.
  - rewrite (proj1 (mean_age_lists_only_groups_with_rows mean_df)). reflexivity.
  - apply (mean_age_lists_only_groups_with_rows
             (filter (fun r => negb (String.eqb (NOC r) "ITA")) med_df)).
    reflexivity.
Defined.

(** ** Participants per Games *)

Lemma NoDup_ids_of_one_games (g : string) (l : list Row) :
  NoDup (map key_GI l) ->
  NoDup (map ID (filter (fun r => String.eqb (Games r) g) l)).
Proof.
  induction l as [|r l IH]; simpl; intros Hnd; [constructor|].
  inversion Hnd as [|? ? Hr Hl]; subst.
  destruct (String.eqb_spec (Games r) g) as [Eg | Ng]; [|now apply IH].
  simpl. constructor; [|now apply IH].
  intros Hin. apply in_map_iff in Hin. destruct Hin as [r' [Ei Hr']].
  apply filter_In in Hr'. destruct Hr' as [Hr' Eg']. apply String.eqb_eq in Eg'.
  apply Hr. apply in_map_iff. exists r'. split; [|assumption].
  unfold key_GI. now rewrite Ei, Eg', Eg.
Qed.

Lemma dedupParticipants_complete (l : list Row) (r : Row) :
  In r l -> exists r', In r' (dedupParticipants l) /\ Games r' = Games r /\ ID r' = ID r.
Proof.
  intros Hr.
  assert (H : List.length (filter (fun x => eqb_GI (key_GI x) (key_GI r))
                                  (dedupParticipants l)) = 1%nat).
  { apply (drop_seen_count eqb_GI key_GI eqb_GI_eq); [intros [] | eauto]. }
  destruct (filter (fun x => eqb_GI (key_GI x) (key_GI r)) (dedupParticipants l))
    as [|r' rest] eqn:E; [discriminate|].
  assert (Hin : In r' (filter (fun x => eqb_GI (key_GI x) (key_GI r)) (dedupParticipants l)))
    by (rewrite E; now left).
  apply filter_In in Hin. destruct Hin as [Hin Ek]. apply eqb_GI_eq in Ek.
  exists r'. unfold key_GI in Ek. inversion Ek. auto.
Qed.

(** X14.  In a table of participants per Games (lines 140-146 and 157-163)
    the number shown for a Games is the number of distinct subject ids
    among the rows of that Games: the rows counted have pairwise distinct
    ids, come from the frame, and the id of every row of that Games is
    among them. *)
Theorem participants_per_games_are_distinct_ids (L : list Row) (g : string) (c : nat) :
  In (g, c) (groupby_count Games (dedupParticipants L)) ->
  let kept := filter (fun r => String.eqb (Games r) g) (dedupParticipants L) in
  c = List.length kept /\
  NoDup (map ID kept) /\
  (forall r, In r kept -> In r L /\ Games r = g) /\
  (forall r, In r L -> Games r = g -> In (ID r) (map ID kept)).
Proof.
  intros Hin kept. apply groupby_count_In in Hin. destruct Hin as [_ Hc].
  split; [exact Hc|]. split; [|split].
  - apply NoDup_ids_of_one_games. apply (drop_seen_NoDup eqb_GI key_GI eqb_GI_eq).
  - intros r Hr. apply filter_In in Hr. destruct Hr as [Hr Eg].
    apply String.eqb_eq in Eg. split; [|exact Eg].
    now apply (drop_seen_In eqb_GI key_GI eqb_GI_eq) in Hr.
  - intros r Hr Eg. destruct (dedupParticipants_complete L r Hr) as [r' [Hr' [Eg' Ei]]].
    rewrite <- Ei. apply in_map. apply filter_In. split; [assumption|].
    apply String.eqb_eq. congruence.
Qed.

Lemma participants_per_games_are_distinct_ids_witness :
  ita_summer_participants (multi_df ++ e2e_df) = [("2004 Summer", 4%nat)] /\
  NoDup (map ID (filter (fun r => String.eqb (Games r) "2004 Summer")
                        (dedupParticipants (multi_df ++ e2e_df)))).
Proof.
  split; [vm_compute; reflexivity|].
  apply (participants_per_games_are_distinct_ids (multi_df ++ e2e_df) "2004 Summer" 4).
  vm_compute. left. reflexivity.
Defined.

(** ** Totals per year and per season *)

Lemma is_tier_cases (m : string) :
  is_tier m = true -> m = "Gold" \/ m = "Silver" \/ m = "Bronze".
Proof.
  unfold is_tier. cbn [existsb]. rewrite orb_false_r, !orb_true_iff, !String.eqb_eq. tauto.
Qed.

Lemma count_ID_tiers (l : list Row) (y : Z) :
  (forall r, In r l -> is_tier (Medal r) = true) ->
  (count_ID l y "Gold" + count_ID l y "Silver" + count_ID l y "Bronze")%nat
  = List.length (filter (fun r => Z.eqb (Year r) y) l).
Proof.
  unfold count_ID. induction l as [|r l IH]; intros H; [reflexivity|].
  assert (IH' := IH (fun x Hx => H x (or_intror Hx))). clear IH.
  cbn [filter]. destruct (Z.eqb (Year r) y); cbn [andb]; [|exact IH'].
  destruct (is_tier_cases _ (H r (or_introl eq_refl))) as [E | [E | E]];
    rewrite E; closed_eqb; cbn [List.length]; lia.
Qed.

Lemma or0_cell_count (l : list Row) (y : Z) (t : string) :
  In y (map Year l) -> or0 (cell (pivot_table l) y t) = count_ID l y t.
Proof.
  intros Hy. destruct (in_dec string_dec t (map Medal l)) as [Hin | Hout].
  - now rewrite pivot_cell_present.
  - rewrite pivot_cell_absent by assumption. simpl. symmetry.
    apply count_ID_absent. intros r Hr _ E. apply Hout. rewrite <- E. now apply in_map.
Qed.

(** X15.  When every deduplicated fencing medal is Gold, Silver or Bronze,
    the Total of a year is the number of deduplicated medal rows of that
    year, and it is at least 1 for every year of the table. *)
Theorem Total_is_the_number_of_medal_rows (df : list Row) (y : Z) :
  (forall r, In r (fencing_unique_medals df) -> is_tier (Medal r) = true) ->
  In y (map Year (fencing_unique_medals df)) ->
  cell (medals_by_type_Total df) y "Total"
  = Some (List.length (filter (fun r => Z.eqb (Year r) y) (fencing_unique_medals df))) /\
  (1 <= List.length (filter (fun r => Z.eqb (Year r) y) (fencing_unique_medals df)))%nat.
Proof.
  intros Htier Hy. unfold medals_by_type_Total, medals_by_type. split.
  - rewrite total_cell by assumption. rewrite !or0_cell_count by assumption.
    now rewrite count_ID_tiers.
  - apply in_map_iff in Hy. destruct Hy as [r [Ey Hr]].
    assert (Hin : In r (filter (fun r => Z.eqb (Year r) y) (fencing_unique_medals df))).
    { apply filter_In. split; [assumption | now apply Z.eqb_eq]. }
    destruct (filter (fun r => Z.eqb (Year r) y) (fencing_unique_medals df));
      [destruct Hin | simpl; lia].
Qed.

Lemma Total_is_the_number_of_medal_rows_witness :
  cell (medals_by_type_Total e2e_df) 2004 "Total"
  = Some (List.length (filter (fun r => Z.eqb (Year r) 2004) (fencing_unique_medals e2e_df))).
Proof.
  apply (Total_is_the_number_of_medal_rows e2e_df 2004).
  - intros r [<- | []]. reflexivity.
  - left. reflexivity.
Defined.

Lemma length_two_filters {A : Type} (f g : A -> bool) (l : list A) :
  (forall x, In x l -> xorb (f x) (g x) = true) ->
  List.length l = (List.length (filter f l) + List.length (filter g l))%nat.
Proof.
  induction l as [|a l IH]; intros H; [reflexivity|].
  pose proof (H a (or_introl eq_refl)) as Ha.
  pose proof (IH (fun x Hx => H x (or_intror Hx))) as IH'.
  simpl. destruct (f a), (g a); simpl in *; try discriminate; lia.
Qed.

(** X16.  When every Italian medal row is of season "Summer" or "Winter",
    the two tables of medals per Games together count at least as many
    medals as the ranking of sports: they deduplicate after the split by
    season, the ranking before any split.  When rows that share Games,
    Event and Medal always share the season, the counts are equal. *)
Theorem seasonal_medals_cover_the_ranking (df : list Row) :
  (forall r, In r (ita df) -> Medal r <> "None" ->
             Season r = "Summer" \/ Season r = "Winter") ->
  (total (medals_by_sport df)
   <= total (medals_by_games_summer df) + total (medals_by_games_winter df))%nat /\
  ((forall r r', In r (ita df) -> In r' (ita df) ->
      key_GEM r = key_GEM r' -> Season r = Season r') ->
   total (medals_by_sport df)
   = (total (medals_by_games_summer df) + total (medals_by_games_winter df))%nat).
Proof.
  intros Hseason.
  set (M := filter (fun r => negb (String.eqb (Medal r) "None")) (ita df)).
  assert (Hs : forall s, dedupMedals (filter (season_is s) (ita df))
                         = drop_duplicates eqb_GEM key_GEM (filter (season_is s) M)).
  { intros s. unfold dedupMedals, M. now rewrite filter_comm. }
  unfold medals_by_sport, medals_by_games_summer, medals_by_games_winter.
  rewrite total_groupCount, !groupby_count_total, !Hs.
  unfold ita_medals_unique, dedupMedals. fold M.
  assert (Hsplit : List.length (drop_duplicates eqb_GEM key_GEM M)
                   = (List.length (filter (season_is "Summer") (drop_duplicates eqb_GEM key_GEM M))
                      + List.length (filter (season_is "Winter")
                                            (drop_duplicates eqb_GEM key_GEM M)))%nat).
  { apply length_two_filters. intros r Hr.
    apply (drop_seen_In eqb_GEM key_GEM eqb_GEM_eq) in Hr. destruct Hr as [Hr _].
    apply medal_filter_In in Hr. destruct Hr as [Hr Hm].
    unfold season_is. destruct (Hseason r Hr Hm) as [E | E]; rewrite E; reflexivity. }
  split.
  - rewrite Hsplit. unfold drop_duplicates.
    pose proof (filter_drop_seen_le eqb_GEM key_GEM eqb_GEM_eq (season_is "Summer") M [] []
                  (fun k H => H)).
    pose proof (filter_drop_seen_le eqb_GEM key_GEM eqb_GEM_eq (season_is "Winter") M [] []
                  (fun k H => H)).
    lia.
  - intros Hdet. rewrite Hsplit. unfold drop_duplicates.
    assert (Hd : forall s r r', In r M -> In r' M -> key_GEM r = key_GEM r' ->
                                season_is s r = season_is s r').
    { intros s r r' Hr Hr' Ek. unfold M in Hr, Hr'. apply filter_In in Hr, Hr'.
      unfold season_is. now rewrite (Hdet r r' (proj1 Hr) (proj1 Hr') Ek). }
    rewrite (filter_drop_seen_eq eqb_GEM key_GEM eqb_GEM_eq (season_is "Summer") M [] []
               (Hd "Summer") (fun k H => H) (fun k (H : In k []) => match H with end)).
    rewrite (filter_drop_seen_eq eqb_GEM key_GEM eqb_GEM_eq (season_is "Winter") M [] []
               (Hd "Winter") (fun k H => H) (fun k (H : In k []) => match H with end)).
    reflexivity.
Qed.

Lemma seasonal_medals_cover_the_ranking_witness :
  (total (medals_by_sport tie_df)
   <= total (medals_by_games_summer tie_df) + total (medals_by_games_winter tie_df))%nat.
Proof.
  apply (seasonal_medals_cover_the_ranking tie_df).
  intros r Hr _. left.
  repeat (destruct Hr as [<- | Hr]; [reflexivity|]). destruct Hr.
Defined.

(** ** Instances of the first properties *)

Lemma groupCount_counts_every_row_witness :
  total (medals_by_sport tie_df) = 3%nat /\
  forall k c, In (k, c) (medals_by_sport tie_df) -> (1 <= c)%nat.
Proof.
  split; [vm_compute; reflexivity|].
  apply (groupCount_counts_every_row Sport (ita_medals_unique tie_df)).
Defined.

Lemma head_of_ranking_is_top_witness :
  head 2 (medals_by_sport tie_df) = [("Athletics", 1%nat); ("Swimming", 1%nat)] /\
  forall x y, In x (head 2 (medals_by_sport tie_df)) ->
              In y (skipn 2 (medals_by_sport tie_df)) -> (snd y <= snd x)%nat.
Proof.
  split; [vm_compute; reflexivity|].
  apply (head_of_ranking_is_top Sport (ita_medals_unique tie_df) 2).
Defined.

Lemma age_compare_partitions_ita_witness :
  List.length (age_compare med_df) = 2%nat /\
  forall g r, In (g, r) (age_compare med_df) ->
    (Sport r = "Fencing" /\ g = "Fencing") \/ (Sport r <> "Fencing" /\ g = "Other sports").
Proof.
  split; [vm_compute; reflexivity|].
  apply (age_compare_partitions_ita med_df).
Defined.

(* ========================================================================= *)
(** * The page as a whole *)

(** ** The chart of line 196 *)

Lemma tier_column (l : list Row) (t : string) :
  existsb (String.eqb t) (columns (pivot_table l)) = true <-> In t (map Medal l).
Proof.
  rewrite pivot_columns. split.
  - intros H. apply (proj1 (existsb_eqb_In _ _)) in H.
    now apply (proj1 (string_keys_In _ _)) in H.
  - intros H. apply (proj2 (existsb_eqb_In _ _)).
    now apply (proj2 (string_keys_In _ _)).
Qed.

Lemma fig_fencing_medal_types_Some (l : list Row) (p : Pivot) :
  fig_fencing_medal_types (pivot_table l) = Some p <->
  p = pivot_table l /\
  In "Gold" (map Medal l) /\ In "Silver" (map Medal l) /\ In "Bronze" (map Medal l).
Proof.
  unfold fig_fencing_medal_types. cbn [forallb]. rewrite andb_true_r.
  pose proof (tier_column l "Gold") as HG.
  pose proof (tier_column l "Silver") as HS.
  pose proof (tier_column l "Bronze") as HB.
  destruct (existsb (String.eqb "Gold") (columns (pivot_table l)));
    destruct (existsb (String.eqb "Silver") (columns (pivot_table l)));
    destruct (existsb (String.eqb "Bronze") (columns (pivot_table l)));
    cbn [andb]; split;
    try discriminate;
    try (intros [_ [H1 [H2 H3]]];
         apply (proj2 HG) in H1; apply (proj2 HS) in H2; apply (proj2 HB) in H3;
         congruence).
  - intros H. injection H as <-.
    split; [reflexivity|]. split; [now apply HG|]. split; [now apply HS | now apply HB].
  - intros [-> _]. reflexivity.
Qed.

(** The page is served exactly when the cleaned frame reaches line 196 with
    a Gold, a Silver and a Bronze column in the pivot. *)
Lemma app_tables_Some (raw : list RawRecord) (df : list Row) (d : Dashboard) :
  clean raw = Some df ->
  (app_tables raw = Some d <->
   d = figures df /\
   In "Gold" (map Medal (fencing_unique_medals df)) /\
   In "Silver" (map Medal (fencing_unique_medals df)) /\
   In "Bronze" (map Medal (fencing_unique_medals df))).
Proof.
  intros E. unfold app_tables. rewrite E. unfold medals_by_type.
  destruct (fig_fencing_medal_types (pivot_table (fencing_unique_medals df)))
    as [p|] eqn:F.
  - apply (proj1 (fig_fencing_medal_types_Some _ _)) in F.
    destruct F as [_ F]. split.
    + intros H. injection H as <-. split; [reflexivity | exact F].
    + intros [-> _]. reflexivity.
  - split; [discriminate|]. intros [_ H].
    assert (F' : fig_fencing_medal_types (pivot_table (fencing_unique_medals df))
                 = Some (pivot_table (fencing_unique_medals df))).
    { apply (proj2 (fig_fencing_medal_types_Some _ _)). split; [reflexivity | exact H]. }
    congruence.
Qed.









(** ** C2: the pivot of medals by year and tier *)

(** C2.  The end-to-end example run through the code: the three Gold
    medals of the team final are one row of the deduplicated frame; the
    pivot has the row of 2004 with a Gold column only, so the Silver and
    Bronze cells of 2004 are absent, not 0; the chart of line 196, which
    names the three columns, raises, and the script stops before line 211,
    where the Total would have been summed over the columns that exist. *)
Theorem medals_by_type_lacks_absent_tiers :
  clean e2e_raw = Some e2e_df /\
  map (fun r => (Year r, Medal r)) (fencing_unique_medals e2e_df) = [(2004, "Gold")] /\
  medals_by_type e2e_df = [(2004, [("Gold", 1%nat)])] /\
  cell (medals_by_type e2e_df) 2004 "Silver" = None /\
  cell (medals_by_type e2e_df) 2004 "Bronze" = None /\
  medals_type_cols (medals_by_type e2e_df) = ["Gold"] /\
  fig_fencing_medal_types (medals_by_type e2e_df) = None /\
  app_tables e2e_raw = None.
Proof.
  split; [exact e2e_clean|]. vm_compute. repeat split.
Qed.

(** ** C9: filters that match nothing *)

(** C9.  An input in which Italy has rows and no medal, run through the
    code: the ranking of sports and its top 10 are empty, as are the
    ranking of events and the ranking of countries; the fencing pivot is
    empty as well, it has no Gold, Silver or Bronze column, the chart of
    line 196 raises, and no page is served. *)
Theorem empty_rankings_stop_at_the_fencing_chart :
  clean med_raw = Some med_df /\
  map NOC med_df = ["ITA"; "ITA"; "USA"; "USA"] /\
  map Medal med_df = ["None"; "None"; "None"; "None"] /\
  medals_by_sport med_df = [] /\
  head 10 (medals_by_sport med_df) = [] /\
  medals_by_event med_df = [] /\
  head 20 (medals_country med_df) = [] /\
  medals_by_type med_df = [] /\
  fig_fencing_medal_types (medals_by_type med_df) = None /\
  app_tables med_raw = None.
Proof.
  split; [exact med_clean|]. vm_compute. repeat split.
Qed.

(** ** C7: rounding of the mean ages *)

Lemma groupby_mean_round1_keys (l : list (string * Row)) :
  map fst (groupby_mean_round1 l) = sorted_keys String.compare (map fst l).
Proof.
  unfold groupby_mean_round1. rewrite map_map. simpl. apply map_id.
Qed.

Lemma groupby_mean_round1_lookup (l : list (string * Row)) (g : string) :
  In g (map fst l) ->
  lookup String.eqb g (groupby_mean_round1 l)
  = Some (round1 (mean (map (fun x => Age (snd x))
                            (filter (fun x => String.eqb (fst x) g) l)))).
Proof.
  intros Hg. unfold groupby_mean_round1.
  apply (lookup_map_key String.eqb
           (fun g => round1 (mean (map (fun x => Age (snd x))
                                       (filter (fun x => String.eqb (fst x) g) l))))
           String.eqb_eq).
  now apply string_keys_In.
Qed.

Lemma mean_times_count (l : list Z) :
  l <> [] ->
  (mean l * inject_Z (Z.of_nat (List.length l)) == inject_Z (fold_right Z.add 0%Z l))%Q.
Proof.
  intros Hl. unfold mean, sum_Z.
  assert (Hn : ~ (inject_Z (Z.of_nat (List.length l)) == 0)%Q).
  { destruct l as [|a l]; [congruence|]. unfold Qeq. simpl. lia. }
  field. exact Hn.
Qed.

(** C7, as the code has it.  For every frame of labelled rows, the table of
    rounded means has exactly one entry for every group that has at least
    one row, and no other entry.  The mean of a group is the sum of the
    ages of its rows over their number.  The value of the entry of a group
    is a whole number of tenths, [t / 10], where [t] is an integer nearest
    to ten times the mean age of the group, and when that is exactly
    halfway between two integers [t] is the even one.  [mean_age] is this
    table for the frame [age_compare]. *)
Theorem mean_age_rounds_half_to_even (l : list (string * Row)) :
  NoDup (map fst (groupby_mean_round1 l)) /\
  (forall g, In g (map fst (groupby_mean_round1 l)) <-> In g (map fst l)) /\
  (forall g, In g (map fst l) ->
     let ages := map (fun x => Age (snd x)) (filter (fun x => String.eqb (fst x) g) l) in
     ages <> [] /\
     (mean ages * inject_Z (Z.of_nat (List.length ages))
      == inject_Z (fold_right Z.add 0%Z ages))%Q /\
     exists t : Z,
       lookup String.eqb g (groupby_mean_round1 l) = Some (inject_Z t / 10)%Q /\
       (forall m, In (g, m) (groupby_mean_round1 l) -> m = (inject_Z t / 10)%Q) /\
       (inject_Z t - (1 # 2) <= mean ages * 10 <= inject_Z t + (1 # 2))%Q /\
       ((mean ages * 10 == inject_Z t - (1 # 2)
         \/ mean ages * 10 == inject_Z t + (1 # 2))%Q -> Z.even t = true)).
Proof.
  split; [|split].
  - rewrite groupby_mean_round1_keys. apply string_keys_NoDup.
  - intros g. rewrite groupby_mean_round1_keys. apply string_keys_In.
  - intros g Hg ages.
    assert (Hne : ages <> []) by now apply group_rows_nonempty.
    split; [exact Hne|]. split; [now apply mean_times_count|].
    exists (rint (mean ages * 10)). split; [|split].
    + now apply groupby_mean_round1_lookup.
    + intros m Hm. apply groupby_mean_round1_In in Hm. now destruct Hm as [_ ->].
    + apply rint_nearest_even.
Qed.

Lemma mean_age_rounds_half_to_even_witness :
  (exists d, app_tables podium_raw = Some d /\
             d_mean_age d = mean_age podium_df) /\
  mean_age podium_df = [("Fencing", 242 # 10)] /\
  map Age (fencing podium_df) = [24; 24; 25; 24] /\
  (mean (map Age (fencing podium_df)) * inject_Z (Z.of_nat (List.length (fencing podium_df)))
   == inject_Z (fold_right Z.add 0%Z (map Age (fencing podium_df))))%Q /\
  exists t : Z,
    lookup String.eqb "Fencing" (mean_age podium_df) = Some (inject_Z t / 10)%Q /\
    (forall m, In ("Fencing", m) (mean_age podium_df) -> m = (inject_Z t / 10)%Q) /\
    (inject_Z t - (1 # 2) <= mean (map Age (fencing podium_df)) * 10
     <= inject_Z t + (1 # 2))%Q /\
    ((mean (map Age (fencing podium_df)) * 10 == inject_Z t - (1 # 2)
      \/ mean (map Age (fencing podium_df)) * 10 == inject_Z t + (1 # 2))%Q ->
     Z.even t = true).
Proof.
  split; [exists (figures podium_df); split; vm_compute; reflexivity|].
  split; [vm_compute; reflexivity|]. split; [vm_compute; reflexivity|].
  destruct (mean_age_rounds_half_to_even (age_compare podium_df)) as [_ [_ H]].
  destruct (H "Fencing") as [_ Ht]; [vm_compute; now left|].
  exact Ht.
Defined.

(** C7, as the specification words it, fails: the page is served for an
    input whose four Italian fencers have the cleaned ages 24, 24, 25 and
    24; their mean age is 24.25; the code shows 24.2, and a tie rounded
    away from zero would be 24.3. *)
Lemma mean_age_half_away_counterexample :
  clean podium_raw = Some podium_df /\
  app_tables podium_raw = Some (figures podium_df) /\
  map Age (fencing podium_df) = [24; 24; 25; 24] /\
  (mean (map Age (fencing podium_df)) == 97 # 4)%Q /\
  d_mean_age (figures podium_df) = [("Fencing", 242 # 10)] /\
  round1_half_away (mean (map Age (fencing podium_df))) = 243 # 10 /\
  ~ (242 # 10 == 243 # 10)%Q.
Proof.
  vm_compute. repeat split; discriminate.
Qed.

(** ** C5: imputation and the medal sentinel *)

Lemma small_binary_In (col : list (option Q)) (q : Q) :
  small_binary col = true -> In (Some q) col -> (0 <= q <= 255)%Q.
Proof.
  unfold small_binary. rewrite forallb_forall. intros H Hin.
  specialize (H _ Hin). cbv beta iota in H.
  apply andb_true_iff in H. destruct H as [H _].
  apply andb_true_iff in H. destruct H as [H1 H2].
  split; now apply Qle_bool_iff.
Qed.

Lemma median_small (col : list (option Q)) (m : Q) :
  small_binary col = true -> median col = Some m -> (0 <= m)%Q /\ (m < 256)%Q.
Proof.
  intros Hs Hm.
  destruct (median_middle col m Hm) as [_ [_ [a [b [Ha [Hb [Ham Hmb]]]]]]].
  destruct (small_binary_In _ _ Hs Ha) as [Ha0 _].
  destruct (small_binary_In _ _ Hs Hb) as [_ Hb1].
  split.
  - now apply Qle_trans with a.
  - apply Qle_lt_trans with b; [assumption|].
    apply Qle_lt_trans with 255%Q; [assumption | reflexivity].
Qed.

(** The value stored for a missing cell of a column. *)
Lemma imputed_stored (col : list (option Q)) (z : Z) :
  In None col ->
  astype_uint8 (is_int64 col) (fillna (median col) None) = Some z ->
  exists m, median col = Some m /\ (small_binary col = true -> z = Qfloor m).
Proof.
  intros Hn H. destruct (imputed_cell col z Hn H) as [m [Em [H0 Hz]]].
  exists m. split; [exact Em|].
  intros Hs. apply Hz. now destruct (median_small col m Hs Em).
Qed.

(** What lines 12-25 do to the row at position [i]. *)
Lemma clean_row (raw : list RawRecord) (df : list Row) (i : nat) (r : RawRecord) (c : Row) :
  clean raw = Some df -> nth_error raw i = Some r -> nth_error df i = Some c ->
  astype_uint8 (is_int64 (map raw_Age raw))
               (fillna (median (map raw_Age raw)) (raw_Age r)) = Some (Age c) /\
  astype_uint8 (is_int64 (map raw_Height raw))
               (fillna (median (map raw_Height raw)) (raw_Height r)) = Some (Height c) /\
  astype_uint8 (is_int64 (map raw_Weight raw))
               (fillna (median (map raw_Weight raw)) (raw_Weight r)) = Some (Weight c) /\
  Medal c = fillna_Medal (raw_Medal r) /\
  In (raw_Age r) (map raw_Age raw) /\ In (raw_Height r) (map raw_Height raw) /\
  In (raw_Weight r) (map raw_Weight raw).
Proof.
  intros Hc Hi Hd. destruct (clean_nth raw df i r Hc Hi) as [c' [Hd' [_ Hrow]]].
  assert (c' = c) by congruence. subst c'.
  apply astype_row_inv in Hrow. destruct Hrow as [Ha [Hh [Hw E]]].
  cbn [raw_Age raw_Height raw_Weight raw_Medal fillna_row] in Ha, Hh, Hw, E.
  pose proof (nth_error_In _ _ Hi) as Hr.
  split; [exact Ha|]. split; [exact Hh|]. split; [exact Hw|].
  split; [rewrite E; reflexivity|].
  split; [|split]; now apply in_map.
Qed.



(** ** C10: the uint8 cast *)

Lemma filter_label (c g : string) (l : list Row) :
  filter (fun x : string * Row => String.eqb (fst x) g) (map (fun r => (c, r)) l)
  = if String.eqb c g then map (fun r => (c, r)) l else [].
Proof.
  induction l as [|r l IH]; simpl; [now destruct (String.eqb c g)|].
  rewrite IH. now destruct (String.eqb c g).
Qed.

Lemma age_compare_Fencing (df : list Row) :
  map (fun x => Age (snd x))
      (filter (fun x => String.eqb (fst x) "Fencing") (age_compare df))
  = map Age (fencing df).
Proof.
  unfold age_compare, fencing. rewrite filter_app, !filter_label. closed_eqb.
  rewrite app_nil_r, map_map. reflexivity.
Qed.

Lemma age_compare_Other (df : list Row) :
  map (fun x => Age (snd x))
      (filter (fun x => String.eqb (fst x) "Other sports") (age_compare df))
  = map Age (filter (fun r => negb (is_Fencing r)) (ita df)).
Proof.
  unfold age_compare. rewrite filter_app, !filter_label. closed_eqb.
  rewrite app_nil_l, map_map. reflexivity.
Qed.

Lemma age_compare_labels (df : list Row) (g : string) :
  In g (map fst (age_compare df)) <->
  (g = "Fencing" /\ fencing df <> [])
  \/ (g = "Other sports" /\ filter (fun r => negb (is_Fencing r)) (ita df) <> []).
Proof.
  unfold age_compare, fencing. rewrite map_app, !map_map. cbn [fst].
  now rewrite in_app_iff, !In_map_const.
Qed.

(** C10.  When the preprocessing block succeeds, Age, Height and Weight of
    every cleaned row lie in [0, 255].  A recorded value between 0 and 256
    is cut to its integer part; a missing value, on a column whose recorded
    values are binary fractions between 0 and 255, holds the integer part
    of the column median.  The tables of a page that is served read these
    integers: the histogram and the box plot hold the cleaned ages of the
    Italian rows, and the mean age of a group is the rounded mean of the
    cleaned ages of the rows of that group. *)
Theorem clean_casts_to_uint8 (raw : list RawRecord) (df : list Row) :
  clean raw = Some df ->
  (forall c, In c df ->
     0 <= Age c <= 255 /\ 0 <= Height c <= 255 /\ 0 <= Weight c <= 255) /\
  (forall i r c, nth_error raw i = Some r -> nth_error df i = Some c ->
     (raw_Age r = None -> small_binary (map raw_Age raw) = true ->
        exists m, median (map raw_Age raw) = Some m /\ Age c = Qfloor m) /\
     (raw_Height r = None -> small_binary (map raw_Height raw) = true ->
        exists m, median (map raw_Height raw) = Some m /\ Height c = Qfloor m) /\
     (raw_Weight r = None -> small_binary (map raw_Weight raw) = true ->
        exists m, median (map raw_Weight raw) = Some m /\ Weight c = Qfloor m) /\
     (forall a, raw_Age r = Some a -> (0 <= a)%Q -> (a < 256)%Q -> Age c = Qfloor a) /\
     (forall h, raw_Height r = Some h -> (0 <= h)%Q -> (h < 256)%Q -> Height c = Qfloor h) /\
     (forall w, raw_Weight r = Some w -> (0 <= w)%Q -> (w < 256)%Q -> Weight c = Qfloor w)) /\
  (forall d, app_tables raw = Some d ->
     d_age_hist d = map Age (ita df) /\
     d_age_compare d
     = map (fun r => ("Fencing", Age r)) (fencing df)
       ++ map (fun r => ("Other sports", Age r))
              (filter (fun r => negb (is_Fencing r)) (ita df)) /\
     fencing df <> [] /\
     lookup String.eqb "Fencing" (d_mean_age d)
     = Some (round1 (mean (map Age (fencing df)))) /\
     lookup String.eqb "Other sports" (d_mean_age d)
     = match filter (fun r => negb (is_Fencing r)) (ita df) with
       | [] => None
       | other => Some (round1 (mean (map Age other)))
       end /\
     (forall g, In g (map fst (d_mean_age d)) -> g = "Fencing" \/ g = "Other sports")).
Proof.
  intros Hc. split; [|split].
  - intros c Hin. destruct (clean_dtypes raw df c Hc Hin) as [Ha [Hh [Hw _]]]. auto.
  - intros i r c Hi Hd.
    destruct (clean_row raw df i r c Hc Hi Hd) as [Ha [Hh [Hw [_ [Ia [Ih Iw]]]]]].
    split; [|split; [|split; [|split; [|split]]]].
    + intros Hn Hs. rewrite Hn in Ha, Ia.
      destruct (imputed_stored _ _ Ia Ha) as [m [Em Hz]]. exists m. auto.
    + intros Hn Hs. rewrite Hn in Hh, Ih.
      destruct (imputed_stored _ _ Ih Hh) as [m [Em Hz]]. exists m. auto.
    + intros Hn Hs. rewrite Hn in Hw, Iw.
      destruct (imputed_stored _ _ Iw Hw) as [m [Em Hz]]. exists m. auto.
    + intros a E H0 H1. rewrite E in Ha. cbn [fillna] in Ha.
      now apply (astype_uint8_small _ _ _ Ha).
    + intros h E H0 H1. rewrite E in Hh. cbn [fillna] in Hh.
      now apply (astype_uint8_small _ _ _ Hh).
    + intros w E H0 H1. rewrite E in Hw. cbn [fillna] in Hw.
      now apply (astype_uint8_small _ _ _ Hw).
  - intros d Hd. apply (proj1 (app_tables_Some raw df d Hc)) in Hd.
    destruct Hd as [-> [HG _]].
    cbn [d_age_hist d_age_compare d_mean_age figures].
    assert (Hf : fencing df <> []).
    { apply in_map_iff in HG. destruct HG as [r [_ Hr]].
      unfold fencing_unique_medals in Hr.
      apply (drop_seen_In eqb_GEM key_GEM eqb_GEM_eq) in Hr. destruct Hr as [Hr _].
      apply medal_filter_In in Hr. destruct Hr as [Hr _].
      intros E. rewrite E in Hr. exact Hr. }
    split; [reflexivity|]. split; [|split; [exact Hf|split; [|split]]].
    + unfold age_compare, fencing. rewrite map_app, !map_map. reflexivity.
    + unfold mean_age. rewrite groupby_mean_round1_lookup.
      * now rewrite age_compare_Fencing.
      * apply age_compare_labels. left. split; [reflexivity | exact Hf].
    + unfold mean_age.
      destruct (filter (fun r => negb (is_Fencing r)) (ita df)) as [|o other] eqn:Eo.
      * unfold groupby_mean_round1.
        apply (lookup_map_key_none String.eqb _ String.eqb_eq).
        intros Hin. apply (proj1 (string_keys_In _ _)) in Hin.
        apply age_compare_labels in Hin. rewrite Eo in Hin.
        destruct Hin as [[E _] | [_ E]]; [discriminate E | now apply E].
      * rewrite groupby_mean_round1_lookup.
        -- now rewrite age_compare_Other, Eo.
        -- apply age_compare_labels. right. rewrite Eo.
           split; [reflexivity | discriminate].
    + intros g Hg. unfold mean_age in Hg. rewrite groupby_mean_round1_keys in Hg.
      apply (proj1 (string_keys_In _ _)) in Hg. now apply (age_compare_groups df).
Qed.

Lemma clean_casts_to_uint8_witness :
  median (map raw_Age podium_raw) = Some (49 # 2) /\
  map Age podium_df = [24; 24; 25; 24; 25] /\
  (exists c, nth_error podium_df 3 = Some c /\
             exists m, median (map raw_Age podium_raw) = Some m /\ Age c = Qfloor m) /\
  (exists d, app_tables podium_raw = Some d /\
             d_age_hist d = map Age (ita podium_df) /\
             lookup String.eqb "Fencing" (d_mean_age d)
             = Some (round1 (mean (map Age (fencing podium_df))))) /\
  map Age (ita podium_df) = [24; 24; 25; 24] /\
  round1 (mean (map Age (fencing podium_df))) = 242 # 10.
Proof.
  assert (Hc : clean podium_raw = Some podium_df) by (vm_compute; reflexivity).
  destruct (clean_casts_to_uint8 podium_raw podium_df Hc) as [_ [Hrow Htab]].
  split; [vm_compute; reflexivity|]. split; [vm_compute; reflexivity|].
  split; [|split; [|split; vm_compute; reflexivity]].
  - destruct (nth_error podium_df 3) as [c|] eqn:Hd; [|discriminate Hd].
    exists c. split; [reflexivity|].
    destruct (Hrow 3%nat _ c eq_refl Hd) as [HA _].
    apply HA; reflexivity.
  - exists (figures podium_df).
    assert (Ht : app_tables podium_raw = Some (figures podium_df))
      by (vm_compute; reflexivity).
    split; [exact Ht|].
    destruct (Htab _ Ht) as [H1 [_ [_ [H2 _]]]]. split; assumption.
Defined.

(** ** What the page shows when it is served *)




